(** * RefScore backend: session registry, progress broadcast and job orchestration

    A shallow embedding of [backend/deepsearch_api.py]:
    the connection manager ([ConnectionManager]), the broadcasting view,
    the lazily built process-wide NLP processor ([get_refiner]), the
    keep-alive loop of the streaming endpoint ([websocket_endpoint]) and the
    submit handler ([refine]).

    Python objects that are shared and mutated (the settings dictionaries)
    live in an explicit store; exceptions are values of an error type and
    every function that may raise returns an [outcome]. *)

From Stdlib Require Import QArith.
From stdpp Require Import gmap strings list fin_maps.

Open Scope Z_scope.

(** ** Text *)

(** A Python [str] is a sequence of Unicode code points. *)
Definition str := list N.

(** An ASCII literal as a [str]. *)
Definition lit (s : string) : str :=
  map Ascii.N_of_ascii (String.list_ascii_of_string s).

(** [str.isspace] on one code point: the code points Python treats as
    whitespace, those [str.strip()] removes. *)
Definition isspace (c : N) : bool :=
  ((9 <=? c) && (c <=? 13) || (28 <=? c) && (c <=? 32)
   || (c =? 133) || (c =? 160) || (c =? 5760)
   || (8192 <=? c) && (c <=? 8202)
   || (c =? 8232) || (c =? 8233) || (c =? 8239) || (c =? 8287)
   || (c =? 12288))%N.

Fixpoint lstrip (s : str) : str :=
  match s with
  | [] => []
  | c :: s' => if isspace c then lstrip s' else s
  end.

Definition rstrip (s : str) : str := rev (lstrip (rev s)).

(** [s.strip()] *)
Definition strip (s : str) : str := rstrip (lstrip s).

(** Truth value of a [str]: non-empty. *)
Definition str_truthy (s : str) : bool :=
  match s with [] => false | _ => true end.

(** [not s or not s.strip()] *)
Definition blank (s : str) : bool :=
  negb (str_truthy s) || negb (str_truthy (strip s)).

(** ** Exceptions and outcomes *)

(** The instances of [Exception] the module raises or handles. Signals that
    derive from [BaseException] only (task cancellation, interpreter exit)
    are not failures of an operation and are not modelled. *)
Inductive exception :=
  | HTTPException (status_code : Z) (detail : str)
  | WebSocketDisconnect
  | TimeoutError
  | ValueError (msg : str)
  | KeyError (key : string)
  | TypeError (msg : str)
  | RuntimeError (msg : str).

Definition is_HTTPException (e : exception) : bool :=
  match e with HTTPException _ _ => true | _ => false end.

Definition is_WebSocketDisconnect (e : exception) : bool :=
  match e with WebSocketDisconnect => true | _ => false end.

Definition is_TimeoutError (e : exception) : bool :=
  match e with TimeoutError => true | _ => false end.

Inductive outcome (A : Type) :=
  | Returned (a : A)
  | Raised (e : exception).
Arguments Returned {A} a.
Arguments Raised {A} e.

(** [try: body except Exception: pass] *)
Definition try_pass (body : outcome unit) : outcome unit :=
  match body with
  | Returned _ => Returned tt
  | Raised _ => Returned tt
  end.

(** ** Wire messages *)

(** The JSON objects handed to [json.dumps]. *)
Inductive message :=
  | MsgError (text : str)
  | MsgProgress (progress : Q) (text : str)
  | MsgPing.

(** ** ConnectionManager *)

(** A WebSocket is identified by its object identity. *)
Definition session := nat.

(** What [send_text] does on a session: it returns or raises. *)
Definition transport := session -> message -> outcome unit.

(** [list.remove(x)]: drops the first occurrence, [None] when there is
    none (Python raises [ValueError]). *)
Fixpoint list_remove (x : session) (l : list session) : option (list session) :=
  match l with
  | [] => None
  | y :: l' =>
      if decide (x = y) then Some l'
      else match list_remove x l' with
           | Some r => Some (y :: r)
           | None => None
           end
  end.

(** [ConnectionManager.connect]: [accept] may raise; on success the socket
    is appended. *)
Definition connect (accept : outcome unit) (ws : session)
    (active_connections : list session) : list session * outcome unit :=
  match accept with
  | Returned _ => (active_connections ++ [ws], Returned tt)
  | Raised e => (active_connections, Raised e)
  end.

(** [ConnectionManager.disconnect] *)
Definition disconnect (ws : session) (active_connections : list session)
    : list session * outcome unit :=
  match list_remove ws active_connections with
  | Some l => (l, Returned tt)
  | None => (active_connections,
             Raised (ValueError (lit "list.remove(x): x not in list")))
  end.

(** What other tasks do to the registry while a broadcast is suspended in
    [await connection.send_text(message)]. *)
Inductive interference :=
  | Registers (s : session)
  | Unregisters (s : session).

Definition interfere1 (conns : list session) (ev : interference) : list session :=
  match ev with
  | Registers s => conns ++ [s]
  | Unregisters s => fst (disconnect s conns)
  end.

Definition interfere (evs : list interference) (conns : list session) : list session :=
  fold_left interfere1 evs conns.

(** One record per [send_text] call of a broadcast. *)
Record attempt := { to : session; delivered : bool }.

Definition attempt_of (send : transport) (msg : message) (c : session) : attempt :=
  {| to := c;
     delivered := match send c msg with Returned _ => true | Raised _ => false end |}.

(** What a broadcast did: the sends it made, the registry it leaves and how
    it ended. *)
Record broadcast_result := {
  attempts : list attempt;
  connections_after : list session;
  ended : outcome unit }.

(** The [for] loop of [broadcast] once nothing else touches the list: the
    remaining elements in order. *)
Fixpoint broadcast_rest (send : transport) (msg : message)
    (rest : list session) : list attempt * outcome unit :=
  match rest with
  | [] => ([], Returned tt)
  | c :: rest' =>
      match try_pass (send c msg) with
      | Returned _ =>
          let '(log, r) := broadcast_rest send msg rest' in
          (attempt_of send msg c :: log, r)
      | Raised e => ([attempt_of send msg c], Raised e)
      end
  end.

(** The [for] loop of [broadcast] from list index [i]. A Python list
    iterator reads [active_connections[i]] from the live list at every
    step and stops when [i] is past its end; [sched] gives, for each
    suspension in [send_text], what other tasks do to the list meanwhile. *)
Fixpoint broadcast_loop (send : transport) (msg : message)
    (sched : list (list interference)) (i : nat) (conns : list session)
    : broadcast_result :=
  match sched with
  | [] =>
      let '(log, r) := broadcast_rest send msg (drop i conns) in
      {| attempts := log; connections_after := conns; ended := r |}
  | evs :: sched' =>
      match conns !! i with
      | None => {| attempts := []; connections_after := conns; ended := Returned tt |}
      | Some c =>
          match try_pass (send c msg) with
          | Returned _ =>
              let r := broadcast_loop send msg sched' (S i) (interfere evs conns) in
              {| attempts := attempt_of send msg c :: attempts r;
                 connections_after := connections_after r;
                 ended := ended r |}
          | Raised e =>
              {| attempts := [attempt_of send msg c];
                 connections_after := interfere evs conns;
                 ended := Raised e |}
          end
      end
  end.

(** [ConnectionManager.broadcast] *)
Definition broadcast (send : transport) (msg : message)
    (sched : list (list interference)) (active_connections : list session)
    : broadcast_result :=
  broadcast_loop send msg sched 0 active_connections.

(** The sessions a broadcast called [send_text] on, and those that got the
    message. *)
Definition attempted (r : broadcast_result) : list session :=
  map to (attempts r).

Definition received (r : broadcast_result) : list session :=
  map to (filter (fun a => delivered a = true) (attempts r)).

(** ** The object store *)

(** Dictionaries are mutable and shared: they live in a store and are
    named by their address. A reference whose address is not in the store
    names an object that is not a dictionary, opaque to this module. *)
Definition loc := positive.

Inductive pyval :=
  | VNone
  | VBool (b : bool)
  | VInt (z : Z)
  | VFloat (q : Q)
  | VStr (s : str)
  | VRef (l : loc).

Abbreviation pydict := (gmap string pyval).
Abbreviation store := (gmap loc (gmap string pyval)).

(** [x[key]] *)
Definition getitem (h : store) (x : pyval) (key : string) : outcome pyval :=
  match x with
  | VRef l =>
      match h !! l with
      | Some d =>
          match d !! key with
          | Some v => Returned v
          | None => Raised (KeyError key)
          end
      | None => Raised (TypeError (lit "object is not subscriptable"))
      end
  | _ => Raised (TypeError (lit "object is not subscriptable"))
  end.

(** [x[key] = v] *)
Definition setitem (h : store) (x : pyval) (key : string) (v : pyval)
    : store * outcome unit :=
  match x with
  | VRef l =>
      match h !! l with
      | Some d => (<[l := <[key := v]> d]> h, Returned tt)
      | None => (h, Raised (TypeError (lit "object does not support item assignment")))
      end
  | _ => (h, Raised (TypeError (lit "object does not support item assignment")))
  end.

(** Truth value of an object, as [x or y] tests it. *)
Definition truthy (h : store) (x : pyval) : bool :=
  match x with
  | VNone => false
  | VBool b => b
  | VInt z => negb (z =? 0)
  | VFloat q => negb (Qeq_bool q 0)
  | VStr s => str_truthy s
  | VRef l =>
      match h !! l with
      | Some d => negb (bool_decide (d = ∅))
      | None => true
      end
  end.

(** *** [copy.deepcopy] *)

(** The memo of a deep copy (source address to copy address) and the
    store being extended. *)
Definition copy_state : Type := gmap loc loc * store.

(** The loop of [_deepcopy_dict]: [y[key] = deepcopy(value, memo)] for
    every item of the source, [y] being the dictionary at [l']. *)
Fixpoint copy_items (rec : pyval -> copy_state -> option (pyval * copy_state))
    (l' : loc) (items : list (string * pyval)) (st : copy_state)
    : option copy_state :=
  match items with
  | [] => Some st
  | (k, v) :: items' =>
      match rec v st with
      | Some (v', (m, h)) =>
          copy_items rec l' items'
            (m, <[l' := <[k := v']> (default ∅ (h !! l'))]> h)
      | None => None
      end
  end.

(** [deepcopy(x, memo)]. Scalars and opaque objects are returned as they
    are; a dictionary already in the memo yields its copy; any other gets a
    new dictionary, recorded in the memo before its items are copied. The
    source objects are those of [h0], the store when the copy began.
    [fuel] bounds the nesting of the recursion. *)
Fixpoint deepcopy_aux (fuel : nat) (h0 : store) (v : pyval) (st : copy_state)
    : option (pyval * copy_state) :=
  match v with
  | VRef l =>
      match st.1 !! l with
      | Some l' => Some (VRef l', st)
      | None =>
          match h0 !! l with
          | None => Some (v, st)
          | Some d =>
              match fuel with
              | O => None
              | S fuel' =>
                  let l' := fresh (dom st.2) in
                  match copy_items (deepcopy_aux fuel' h0) l' (map_to_list d)
                          (<[l := l']> st.1, <[l' := ∅]> st.2) with
                  | Some st' => Some (VRef l', st')
                  | None => None
                  end
              end
          end
      end
  | _ => Some (v, st)
  end.

(** [deepcopy(x)]: a fresh memo, and as much nesting as there are
    dictionaries (never exhausted, see [deepcopy_aux_total]). *)
Definition deepcopy (h : store) (x : pyval) : pyval * store :=
  match deepcopy_aux (S (size h)) h x (∅, h) with
  | Some (y, (_, h')) => (y, h')
  | None => (x, h)
  end.

(** ** The application *)

Section Application.
Context {engine : Type}.

(** [BroadcastingView] has no fields. *)
Inductive BroadcastingView := mkBroadcastingView.

(** Modelled from the spec: [DocumentRefiner], the per-job wrapper of the
    DEEPSEARCH module, is built from the settings, the view and the NLP
    processor and keeps them; [refiner.view] is the view it was given. *)
Record DocumentRefiner := {
  refiner_settings : pyval;
  view : BroadcastingView;
  refiner_nlp_processor : engine }.

(** What the module imports and calls but does not define: the names of the
    DEEPSEARCH module, task scheduling and [str(e)]. A collaborator is given
    by the result of each call; it does not write to the store. The
    results may differ from one request to the next. *)
Record collaborators := {
  DEFAULT_SETTINGS : loc;
  NLPProcessor : store -> pyval -> outcome engine;
  refine_document : DocumentRefiner -> str -> outcome str;
  generate_bibliography_text : DocumentRefiner -> outcome str;
  generate_bibtex_content : DocumentRefiner -> outcome str;
  create_task : message -> outcome unit;
  exception_str : exception -> str }.

(** The module's globals and the objects they reach. [tasks] are the
    broadcasts handed to [asyncio.create_task] that have not run yet. *)
Record world := {
  heap : store;
  nlp_processor : option engine;
  active_connections : list session;
  tasks : list message }.

Definition set_heap (h : store) (w : world) : world :=
  {| heap := h; nlp_processor := nlp_processor w;
     active_connections := active_connections w; tasks := tasks w |}.

Definition set_nlp_processor (p : option engine) (w : world) : world :=
  {| heap := heap w; nlp_processor := p;
     active_connections := active_connections w; tasks := tasks w |}.

Definition add_task (msg : message) (w : world) : world :=
  {| heap := heap w; nlp_processor := nlp_processor w;
     active_connections := active_connections w; tasks := tasks w ++ [msg] |}.

(** Code that reads and writes the globals and may raise. *)
Definition action (A : Type) : Type := world -> world * outcome A.

Definition action_bind {A B} (a : action A) (k : A -> action B) : action B :=
  fun w =>
    match a w with
    | (w', Returned x) => k x w'
    | (w', Raised e) => (w', Raised e)
    end.

Notation "'let*' x ':=' a 'in' k" := (action_bind a (fun x => k))
  (at level 10, x name, a at level 100, k at level 200).

(** An external call that only returns or raises. *)
Definition call {A} (o : outcome A) : action A := fun w => (w, o).

(** [asyncio.create_task(manager.broadcast(json.dumps(msg)))] *)
Definition schedule_broadcast (ext : collaborators) (msg : message) : action unit :=
  fun w =>
    match create_task ext msg with
    | Returned _ => (add_task msg w, Returned tt)
    | Raised e => (w, Raised e)
    end.

(** [BroadcastingView.show_error] *)
Definition show_error (ext : collaborators) (v : BroadcastingView)
    (msg : str) : action unit :=
  schedule_broadcast ext (MsgError msg).

(** [BroadcastingView.update_progress] *)
Definition update_progress (ext : collaborators) (v : BroadcastingView)
    (percent : Q) (status : str) : action unit :=
  schedule_broadcast ext (MsgProgress percent status).

Record RefineRequest := {
  manuscriptText : str;
  maxResults : option Z;
  noCache : option bool }.

Record RefineResponse := {
  processedText : str;
  bibliographyText : str;
  bibtex : str }.

(** [settings or DEFAULT_SETTINGS] *)
Definition or_default (ext : collaborators) (h : store) (settings : pyval) : pyval :=
  if truthy h settings then settings else VRef (DEFAULT_SETTINGS ext).

(** [get_refiner] *)
Definition get_refiner (ext : collaborators) (settings : pyval)
    : action DocumentRefiner :=
  fun w =>
    let settings := or_default ext (heap w) settings in
    let view := mkBroadcastingView in
    match nlp_processor w with
    | None =>
        match NLPProcessor ext (heap w) settings with
        | Returned processor =>
            (set_nlp_processor (Some processor) w,
             Returned {| refiner_settings := settings; view := view;
                         refiner_nlp_processor := processor |})
        | Raised e =>
            (w, Raised (HTTPException 503
                  (lit "NLP processor unavailable: " ++ exception_str ext e)))
        end
    | Some processor =>
        (w, Returned {| refiner_settings := settings; view := view;
                        refiner_nlp_processor := processor |})
    end.

(** [try: settings[section][key] = v except Exception: pass], on the
    store. *)
Definition try_set_nested (h : store) (settings : pyval)
    (section key : string) (v : pyval) : store :=
  match getitem h settings section with
  | Returned sub => fst (setitem h sub key v)
  | Raised _ => h
  end.

(** Lines 128 to 138 of [refine]: the copy of the defaults with the
    overrides of the request. *)
Definition request_settings (ext : collaborators) (req : RefineRequest)
    (h : store) : pyval * store :=
  let '(settings, h) := deepcopy h (VRef (DEFAULT_SETTINGS ext)) in
  let h :=
    match maxResults req with
    | Some n =>
        if 0 <? n
        then try_set_nested h settings "search_settings" "max_results" (VInt n)
        else h
    | None => h
    end in
  let h :=
    match noCache req with
    | Some true =>
        try_set_nested h settings "privacy_settings" "cache_enabled" (VBool false)
    | _ => h
    end in
  (settings, h).

(** The body of the [try] of [refine]. *)
Definition run_job (ext : collaborators) (refiner : DocumentRefiner)
    (text : str) : action RefineResponse :=
  let* _ := update_progress ext (view refiner) 0
              (lit "Starting DeepSearch refinement...") in
  let* processed := call (refine_document ext refiner text) in
  let* _ := update_progress ext (view refiner) (98 # 100)
              (lit "Generating bibliography and BibTeX...") in
  let* bibliography_text := call (generate_bibliography_text ext refiner) in
  let* bibtex := call (generate_bibtex_content ext refiner) in
  let* _ := update_progress ext (view refiner) 1
              (lit "DeepSearch complete") in
  call (Returned {| processedText := processed;
                    bibliographyText := bibliography_text;
                    bibtex := bibtex |}).

(** The handlers of that [try]: an [HTTPException] goes through; any other
    exception is reported, a failure of the report is dropped, and
    [HTTPException(500, str(e))] is raised. *)
Definition handle_job_failure (ext : collaborators) (refiner : DocumentRefiner)
    (e : exception) : action RefineResponse :=
  if is_HTTPException e then call (Raised e)
  else fun w =>
    let '(w', _) :=
      show_error ext (view refiner)
        (lit "Refinement failed: " ++ exception_str ext e) w in
    (w', Raised (HTTPException 500 (exception_str ext e))).

(** [refine], the submit handler. *)
Definition refine (ext : collaborators) (req : RefineRequest)
    : action RefineResponse :=
  fun w =>
    if blank (manuscriptText req)
    then (w, Returned {| processedText := []; bibliographyText := []; bibtex := [] |})
    else
      let '(settings, h) := request_settings ext req (heap w) in
      match get_refiner ext settings (set_heap h w) with
      | (w1, Raised e) => (w1, Raised e)
      | (w1, Returned refiner) =>
          match run_job ext refiner (manuscriptText req) w1 with
          | (w2, Returned resp) => (w2, Returned resp)
          | (w2, Raised e) => handle_job_failure ext refiner e w2
          end
      end.

(** Requests served one after the other, each with the collaborators'
    behaviour during it. [get_refiner] has no suspension point, so the
    cache sees requests in some such order also when jobs overlap. *)
Fixpoint serve (reqs : list (collaborators * RefineRequest)) (w : world)
    : world * list (outcome RefineResponse) :=
  match reqs with
  | [] => (w, [])
  | (ext, req) :: reqs' =>
      let '(w1, r) := refine ext req w in
      let '(w2, rs) := serve reqs' w1 in
      (w2, r :: rs)
  end.

End Application.

Arguments DocumentRefiner : clear implicits.
Arguments collaborators : clear implicits.
Arguments world : clear implicits.

(** ** The streaming endpoint *)

(** One turn of the [while True] loop of [websocket_endpoint]: how
    [wait_for(receive_text(), 30)] ends and, when it times out, how the
    [send_text] of the ping ends. *)
Record turn := {
  inbound : outcome str;
  ping : outcome unit }.

(** The loop: [None] while the session is still waiting, the exception
    that leaves the loop otherwise. *)
Fixpoint keepalive (script : list turn) : option exception :=
  match script with
  | [] => None
  | t :: script' =>
      match inbound t with
      | Returned _ => keepalive script'
      | Raised e =>
          if is_TimeoutError e then
            match ping t with
            | Returned _ => keepalive script'
            | Raised e' => Some e'
            end
          else Some e
      end
  end.

Inductive endpoint_state :=
  | Waiting
  | Ended (o : outcome unit).

(** [websocket_endpoint]: [meanwhile] is what other sessions do to the
    registry while this one is in its loop. *)
Definition websocket_endpoint (accept : outcome unit) (script : list turn)
    (meanwhile : list interference) (websocket : session)
    (active_connections : list session) : list session * endpoint_state :=
  match connect accept websocket active_connections with
  | (conns, Raised e) => (conns, Ended (Raised e))
  | (conns, Returned _) =>
      let conns := interfere meanwhile conns in
      match keepalive script with
      | None => (conns, Waiting)
      | Some e =>
          if is_WebSocketDisconnect e then
            let '(conns', r) := disconnect websocket conns in
            (conns', Ended r)
          else (conns, Ended (Raised e))
      end
  end.

(** ** Startup and static files *)

(** [os.environ.get(name, fallback)] *)
Definition environ_get (environ : gmap string string) (name fallback : string)
    : string :=
  match environ !! name with
  | Some v => v
  | None => fallback
  end.

(** [lifespan], up to its [yield]: with [REFSCORE_PRELOAD_NLP] set to
    ["1"] the processor is built from [DEFAULT_SETTINGS]; a failure is
    logged and the cache is left empty; without the flag the cache is
    emptied. *)
Definition lifespan {engine} (environ : gmap string string)
    (ext : collaborators engine) (w : world engine) : world engine :=
  let preload := environ_get environ "REFSCORE_PRELOAD_NLP" "0" in
  if decide (preload = "1") then
    match NLPProcessor ext (heap w) (VRef (DEFAULT_SETTINGS ext)) with
    | Returned processor => set_nlp_processor (Some processor) w
    | Raised _ => set_nlp_processor None w
    end
  else set_nlp_processor None w.

(** [s.startswith("/")] and [s.endswith("/")] *)
Definition startswith_sep (s : str) : bool :=
  match s with
  | c :: _ => (c =? 47)%N
  | [] => false
  end.

Definition endswith_sep (s : str) : bool :=
  match last s with
  | Some c => (c =? 47)%N
  | None => false
  end.

(** [os.path.join(a, b)] on POSIX. *)
Definition path_join (a b : str) : str :=
  if startswith_sep b then b
  else if negb (str_truthy a) || endswith_sep a then a ++ b
  else a ++ lit "/" ++ b.

Inductive FileResponse := mkFileResponse (path : str).

(** [serve_spa]: [isfile] is [os.path.isfile] on the file system of the
    moment. *)
Definition serve_spa (isfile : str -> bool) (full_path : str) : FileResponse :=
  let potential_path := path_join (lit "dist") full_path in
  if isfile potential_path then mkFileResponse potential_path
  else mkFileResponse (lit "dist/index.html").

(** ** Notions used to state the properties *)

(** The three progress events of a job, in program order. *)
Definition progress_events : list message :=
  [MsgProgress 0 (lit "Starting DeepSearch refinement...");
   MsgProgress (98 # 100) (lit "Generating bibliography and BibTeX...");
   MsgProgress 1 (lit "DeepSearch complete")].

(** The error event of a job that failed with [e]. *)
Definition error_event {engine} (ext : collaborators engine) (e : exception)
    : message :=
  MsgError (lit "Refinement failed: " ++ exception_str ext e).

(** A turn of the keep-alive loop that does not end it: a message came
    in, or the wait timed out and the ping was sent. *)
Definition benign (t : turn) : bool :=
  match inbound t with
  | Returned _ => true
  | Raised e =>
      is_TimeoutError e
      && match ping t with Returned _ => true | Raised _ => false end
  end.

(** None of the events is about the session [ws]. *)
Definition foreign (ws : session) (evs : list interference) : Prop :=
  Forall (fun ev => match ev with
                    | Registers s => s ≠ ws
                    | Unregisters s => s ≠ ws
                    end) evs.

(** Sessions only register. *)
Definition only_registers (sched : list (list interference)) : Prop :=
  Forall (Forall (fun ev => match ev with
                            | Registers _ => True
                            | Unregisters _ => False
                            end)) sched.

(** The request without its [maxResults]. *)
Definition without_max_results (req : RefineRequest) : RefineRequest :=
  {| manuscriptText := manuscriptText req;
     maxResults := None;
     noCache := noCache req |}.



(** [send_text] on [s] returns. *)
Definition send_succeeds (send : transport) (msg : message) (s : session) : bool :=
  match send s msg with Returned _ => true | Raised _ => false end.

(** Every session that unregisters sits at position [i] or later of the
    registry at that moment (or is not in it). *)
Fixpoint ahead (i : nat) (evs : list interference) (conns : list session) : Prop :=
  match evs with
  | [] => True
  | Registers s :: evs' => ahead i evs' (conns ++ [s])
  | Unregisters s :: evs' =>
      (s ∉ take i conns) /\ ahead i evs' (interfere1 conns (Unregisters s))
  end.

(** Along a broadcast from index [i], no session unregisters from a
    position the iteration has reached: during the send to position [i]
    the iterator already stands at [i + 1]. *)
Fixpoint undisturbed (sched : list (list interference)) (i : nat)
    (conns : list session) : Prop :=
  match sched with
  | [] => True
  | evs :: sched' =>
      match conns !! i with
      | None => True
      | Some _ =>
          ahead (S i) evs conns /\ undisturbed sched' (S i) (interfere evs conns)
      end
  end.

(** The settings a job runs with, those [get_refiner] hands to the NLP
    processor and to the refiner, and the store holding them. *)
Definition job_settings {engine} (ext : collaborators engine)
    (req : RefineRequest) (h : store) : pyval * store :=
  let '(settings, h') := request_settings ext req h in
  (or_default ext h' settings, h').

(** The call [NLPProcessor(settings)] a request makes when no processor
    is cached. *)
Definition construction {engine} (ext : collaborators engine)
    (req : RefineRequest) (w : world engine) : outcome engine :=
  NLPProcessor ext (job_settings ext req (heap w)).2 (job_settings ext req (heap w)).1.

(** The world after the error report of a failed job: the error event is
    scheduled unless scheduling itself raises. *)
Definition after_report {engine} (ext : collaborators engine) (e : exception)
    (w : world engine) : world engine :=
  let msg := MsgError (lit "Refinement failed: " ++ exception_str ext e) in
  match create_task ext msg with
  | Returned _ => add_task msg w
  | Raised _ => w
  end.

(** What a piece of code leaves alone: everything but the task queue,
    which only grows. *)
Definition only_schedules {engine} (w w' : world engine) : Prop :=
  heap w' = heap w /\ nlp_processor w' = nlp_processor w
  /\ active_connections w' = active_connections w
  /\ exists msgs, tasks w' = tasks w ++ msgs.

(** The value a deep copy with memo [m] puts where the source has [v]. *)
Definition rename (m : gmap loc loc) (v : pyval) : pyval :=
  match v with
  | VRef x => match m !! x with Some x' => VRef x' | None => v end
  | _ => v
  end.

(** A deep copy under way, from the store [h0], with memo [m] and store
    [h]; the dictionaries of [P] are those whose items are being copied. *)
Record copy_inv (h0 : store) (P : gset loc) (m : gmap loc loc) (h : store)
    : Prop := {
  inv_frame : forall l d, h0 !! l = Some d -> h !! l = Some d;
  inv_memo : forall l l', m !! l = Some l' ->
    l ∈ dom h0 /\ l' ∈ dom h /\ l' ∉ dom h0;
  inv_inj : forall l1 l2 l', m !! l1 = Some l' -> m !! l2 = Some l' -> l1 = l2;
  inv_done : forall l l', m !! l = Some l' -> l ∉ P ->
    exists d, h0 !! l = Some d /\ h !! l' = Some (rename m <$> d)
      /\ forall k x, d !! k = Some (VRef x) -> x ∈ dom h0 -> x ∈ dom m }.

(** The items [kv] written one after the other into [acc], each value
    through [f]. *)
Definition put_all (f : pyval -> pyval) (acc : gmap string pyval)
    (items : list (string * pyval)) : gmap string pyval :=
  foldl (fun a kv => <[kv.1 := f kv.2]> a) acc items.

(** What one call of [deepcopy] establishes: the copy goes on, the memo
    grows, the dictionaries that existed are as they were, the result is
    the renamed source and the source, when a dictionary, is in the memo. *)
Definition copy_post (h0 : store) (P : gset loc) (v : pyval)
    (m : gmap loc loc) (h : store) (v' : pyval) (m' : gmap loc loc)
    (h' : store) : Prop :=
  copy_inv h0 P m' h' /\ m ⊆ m'
  /\ (forall y, y ∈ dom h -> h' !! y = h !! y)
  /\ v' = rename m' v
  /\ (forall x, v = VRef x -> x ∈ dom h0 -> x ∈ dom m').

(** The object [s] is not one of the dictionaries of [h0], and its items
    refer to none of them; the dictionaries of [h0] are in [h] as they
    were. *)
Definition isolated (h0 h : store) (s : pyval) : Prop :=
  h0 ⊆ h
  /\ forall l, s = VRef l ->
       l ∉ dom h0
       /\ forall d k x, h !! l = Some d -> d !! k = Some (VRef x) -> x ∉ dom h0.







(** ** Sample data *)

Definition sample_top : gmap string pyval :=
  <["search_settings" := VRef 2%positive]>
    (<["privacy_settings" := VRef 3%positive]> (<["version" := VInt 3]> ∅)).

Definition sample_search : gmap string pyval :=
  <["max_results" := VInt 20]> (<["provider" := VStr (lit "x")]> ∅).

Definition sample_privacy : gmap string pyval :=
  <["cache_enabled" := VBool true]> ∅.

(** Defaults at address 1 with their two sections at 2 and 3. *)
Definition sample_store : store :=
  <[1%positive := sample_top]>
    (<[2%positive := sample_search]> (<[3%positive := sample_privacy]> ∅)).

(** The value under [key] of the section [section] of the settings [s]. *)
Definition setting (h : store) (s : pyval) (section key : string) : outcome pyval :=
  match getitem h s section with
  | Returned sub => getitem h sub key
  | Raised e => Raised e
  end.

Definition sample_str (e : exception) : str :=
  match e with
  | HTTPException _ d => d
  | WebSocketDisconnect => []
  | TimeoutError => []
  | ValueError m => m
  | KeyError k => lit k
  | TypeError m => m
  | RuntimeError m => m
  end.

Definition sample_ext : collaborators nat :=
  {| DEFAULT_SETTINGS := 1%positive;
     NLPProcessor := fun _ _ => Returned 42%nat;
     refine_document := fun _ _ => Returned (lit "Refined document text");
     generate_bibliography_text := fun _ => Returned (lit "Bibliography text");
     generate_bibtex_content := fun _ => Returned (lit "@article{...}");
     create_task := fun _ => Returned tt;
     exception_str := sample_str |}.

(** The processor cannot be built. *)
Definition ext_no_engine : collaborators nat :=
  {| DEFAULT_SETTINGS := 1%positive;
     NLPProcessor := fun _ _ => Raised (RuntimeError (lit "model missing"));
     refine_document := refine_document sample_ext;
     generate_bibliography_text := generate_bibliography_text sample_ext;
     generate_bibtex_content := generate_bibtex_content sample_ext;
     create_task := create_task sample_ext;
     exception_str := sample_str |}.

(** The refinement stage raises [e]; scheduling a task raises when
    [tasks_fail]. *)
Definition ext_stage_raises (e : exception) (tasks_fail : bool) : collaborators nat :=
  {| DEFAULT_SETTINGS := 1%positive;
     NLPProcessor := NLPProcessor sample_ext;
     refine_document := fun _ _ => Raised e;
     generate_bibliography_text := generate_bibliography_text sample_ext;
     generate_bibtex_content := generate_bibtex_content sample_ext;
     create_task := fun m =>
       match m with
       | MsgError _ => if tasks_fail then Raised (RuntimeError (lit "no running event loop"))
                       else Returned tt
       | _ => Returned tt
       end;
     exception_str := sample_str |}.

Definition sample_world : world nat :=
  {| heap := sample_store; nlp_processor := None;
     active_connections := []; tasks := [] |}.

Definition sample_request : RefineRequest :=
  {| manuscriptText := lit "This is a test manuscript.";
     maxResults := Some 10; noCache := Some true |}.

Definition other_request : RefineRequest :=
  {| manuscriptText := lit "Another manuscript.";
     maxResults := Some (-5); noCache := None |}.

(** A transport on which every send returns, and one on which the sends to
    session 2 raise. *)
Definition reliable : transport := fun _ _ => Returned tt.
Definition flaky : transport := fun s _ =>
  if decide (s = 2%nat) then Raised (RuntimeError (lit "closed")) else Returned tt.

(** * Properties *)

(** ** Blank text *)

Lemma lstrip_spaces (s : str) :
  Forall (fun c => isspace c = true) s -> lstrip s = [].
Proof.
  induction 1 as [|c s Hc _ IH]; simpl; [done|].
  by rewrite Hc.
Qed.

Lemma strip_spaces (s : str) :
  Forall (fun c => isspace c = true) s -> strip s = [].
Proof.
  intros H. unfold strip, rstrip. by rewrite (lstrip_spaces s H).
Qed.

(** ** The registry *)

Lemma list_remove_None (x : session) (l : list session) :
  list_remove x l = None <-> x ∉ l.
Proof.
  induction l as [|y l IH]; simpl.
  - split; [intros _; apply not_elem_of_nil | done].
  - destruct (decide (x = y)) as [->|Hne].
    + split; [done | intros H; destruct H; left].
    + destruct (list_remove x l) as [r|] eqn:Hr.
      * split; [done|]. intros Hni. exfalso.
        apply not_elem_of_cons in Hni as [_ Hni].
        by apply IH in Hni.
      * split; [|done]. intros _. apply not_elem_of_cons. split; [done|].
        by apply IH.
Qed.

Lemma list_remove_Some (x : session) (l l' : list session) :
  list_remove x l = Some l' <->
  exists l1 l2, l = l1 ++ x :: l2 /\ (x ∉ l1) /\ l' = l1 ++ l2.
Proof.
  revert l'. induction l as [|y l IH]; intros l'; simpl.
  - split; [done|]. intros (l1 & l2 & H & _). by destruct l1.
  - destruct (decide (x = y)) as [->|Hne].
    + split.
      * intros [= <-]. exists [], l. split_and!; [done|apply not_elem_of_nil|done].
      * intros (l1 & l2 & H & Hni & ->). destruct l1 as [|z l1]; simpl in *.
        -- by injection H as ->.
        -- injection H as -> _. exfalso. apply Hni. left.
    + destruct (list_remove x l) as [r|] eqn:Hr.
      * split.
        -- intros [= <-]. destruct (proj1 (IH r) eq_refl) as (l1 & l2 & -> & Hni & ->).
           exists (y :: l1), l2. split_and!; [done| |done].
           apply not_elem_of_cons. done.
        -- intros (l1 & l2 & H & Hni & ->). destruct l1 as [|z l1]; simpl in *.
           ++ injection H as ? _. congruence.
           ++ injection H as <- ->. apply not_elem_of_cons in Hni as [_ Hni].
              f_equal. f_equal.
              assert (Some r = Some (l1 ++ l2)) as [= ->]; [|done].
              apply IH. by exists l1, l2.
      * split; [done|]. intros (l1 & l2 & H & Hni & ->).
        destruct l1 as [|z l1]; simpl in *.
        -- injection H as ? _. congruence.
        -- injection H as <- ->. apply not_elem_of_cons in Hni as [_ Hni].
           assert (None = Some (l1 ++ l2)) as Habs; [|done].
           apply IH. by exists l1, l2.
Qed.

Lemma broadcast_rest_spec (send : transport) (msg : message) (rest : list session) :
  broadcast_rest send msg rest = (map (attempt_of send msg) rest, Returned tt).
Proof.
  induction rest as [|c rest IH]; simpl; [done|].
  rewrite IH. by destruct (send c msg).
Qed.

Lemma broadcast_loop_returns (send : transport) (msg : message)
    (sched : list (list interference)) (i : nat) (conns : list session) :
  ended (broadcast_loop send msg sched i conns) = Returned tt.
Proof.
  revert i conns. induction sched as [|evs sched IH]; intros i conns; simpl.
  - by rewrite broadcast_rest_spec.
  - destruct (conns !! i) as [c|]; [|done].
    destruct (send c msg); simpl; apply IH.
Qed.

Lemma attempted_quiet (send : transport) (msg : message) (l : list session) :
  map to (map (attempt_of send msg) l) = l.
Proof. induction l as [|c l IH]; simpl; [done|]. by rewrite IH. Qed.

Lemma received_quiet (send : transport) (msg : message) (l : list session) :
  map to (filter (fun a => delivered a = true) (map (attempt_of send msg) l))
  = filter (fun s => send_succeeds send msg s = true) l.
Proof.
  induction l as [|c l IH]; [done|].
  simpl. destruct (send_succeeds send msg c) eqn:E.
  - rewrite (filter_cons_True _ (attempt_of send msg c)) by exact E.
    rewrite (filter_cons_True _ c) by exact E. simpl. by rewrite IH.
  - rewrite (filter_cons_False _ (attempt_of send msg c)).
    + rewrite (filter_cons_False _ c); [done|]. by rewrite E.
    + change (delivered (attempt_of send msg c)) with (send_succeeds send msg c).
      by rewrite E.
Qed.

(** C2 (as the code has it): [disconnect] removes the first occurrence of
    the session, and only that one, when the session is in the registry;
    when it is not, [disconnect] raises [ValueError] and leaves the registry
    as it was. *)
Theorem disconnect_first_occurrence (s : session) (conns : list session) :
  (s ∈ conns ->
     exists l1 l2, conns = l1 ++ s :: l2 /\ (s ∉ l1) /\
       disconnect s conns = (l1 ++ l2, Returned tt))
  /\ (s ∉ conns ->
        disconnect s conns
        = (conns, Raised (ValueError (lit "list.remove(x): x not in list")))).
Proof.
  unfold disconnect. split.
  - intros Hin. destruct (list_remove s conns) as [l'|] eqn:Hr.
    + apply list_remove_Some in Hr as (l1 & l2 & -> & Hni & ->). by exists l1, l2.
    + apply list_remove_None in Hr. done.
  - intros Hni. apply list_remove_None in Hni. by rewrite Hni.
Qed.

Lemma disconnect_first_occurrence_witness :
  (exists l1 l2, [4; 7; 5; 7]%nat = l1 ++ 7%nat :: l2 /\ (7%nat ∉ l1) /\
     disconnect 7%nat [4; 7; 5; 7]%nat = (l1 ++ l2, Returned tt))
  /\ disconnect 7%nat [4; 5]%nat
     = ([4; 5]%nat, Raised (ValueError (lit "list.remove(x): x not in list"))).
Proof.
  destruct (disconnect_first_occurrence 7%nat [4; 7; 5; 7]%nat) as [H1 _].
  destruct (disconnect_first_occurrence 7%nat [4; 5]%nat) as [_ H2].
  split.
  - apply H1. apply list_elem_of_In. simpl. tauto.
  - apply H2. intros Hin. apply list_elem_of_In in Hin. simpl in Hin.
    intuition discriminate.
Defined.

(** C2 fails as stated: unregistering a session that is not registered
    raises, and so does the second of two calls in a row. *)
Lemma disconnect_absent_raises :
  (7%nat ∉ [3%nat])
  /\ snd (disconnect 7%nat [3%nat])
     = Raised (ValueError (lit "list.remove(x): x not in list"))
  /\ snd (disconnect 7%nat (fst (disconnect 7%nat [3; 7]%nat)))
     = Raised (ValueError (lit "list.remove(x): x not in list")).
Proof.
  split_and!; [|reflexivity|reflexivity].
  intros Hin. apply list_elem_of_In in Hin. simpl in Hin. intuition discriminate.
Qed.

(** One session in three fails: the other two still get the message, in
    order, and the broadcast returns. *)
Lemma broadcast_past_a_failure :
  attempted (broadcast flaky MsgPing [] [1; 2; 3]%nat) = [1; 2; 3]%nat
  /\ received (broadcast flaky MsgPing [] [1; 2; 3]%nat) = [1; 3]%nat
  /\ ended (broadcast flaky MsgPing [] [1; 2; 3]%nat) = Returned tt
  /\ ended (broadcast flaky MsgPing [] []) = Returned tt.
Proof. repeat split. Qed.

Lemma ahead_preserves (x : session) (evs : list interference) (j : nat)
    (conns : list session) :
  ahead j evs conns -> (j <= length conns)%nat ->
  (x ∈ drop j conns \/ x ∉ conns) ->
  (j <= length (interfere evs conns))%nat
  /\ (x ∈ drop j (interfere evs conns) \/ x ∉ interfere evs conns).
Proof.
  revert conns. induction evs as [|ev evs IH]; intros conns Hah Hlen Hx; [done|].
  destruct ev as [s|s]; simpl in Hah |- *.
  - apply IH; [done| |].
    + rewrite length_app. simpl. lia.
    + destruct Hx as [Hx|Hx].
      * left. rewrite drop_app_le by done. apply elem_of_app. by left.
      * destruct (decide (x = s)) as [->|Hne].
        -- left. rewrite drop_app_le by done. apply elem_of_app. right.
           apply list_elem_of_singleton. done.
        -- right. intros Hin. apply elem_of_app in Hin as [Hin|Hin]; [done|].
           apply list_elem_of_singleton in Hin. done.
  - destruct Hah as [Hni Hah]. unfold disconnect in *.
    destruct (list_remove s conns) as [l'|] eqn:Hr; simpl in *; [|by apply IH].
    apply list_remove_Some in Hr as (l1 & l2 & -> & Hs1 & ->).
    assert (j <= length l1)%nat as Hj.
    { destruct (decide (j <= length l1)%nat) as [|Hgt]; [done|]. exfalso.
      apply Hni. rewrite take_app_ge by lia.
      apply elem_of_app. right.
      destruct (j - length l1)%nat as [|n] eqn:Hn; [lia|]. simpl. left. }
    apply IH; [done| |].
    + rewrite length_app. lia.
    + rewrite drop_app_le by done. rewrite drop_app_le in Hx by done.
      destruct Hx as [Hx|Hx].
      * apply elem_of_app in Hx as [Hx|Hx].
        -- left. apply elem_of_app. by left.
        -- apply elem_of_cons in Hx as [->|Hx].
           ++ destruct (decide (s ∈ l2)) as [Hin|Hnin].
              ** left. apply elem_of_app. by right.
              ** right. intros Hin. apply elem_of_app in Hin as [Hin|Hin]; done.
           ++ left. apply elem_of_app. by right.
      * right. intros Hin. apply Hx. apply elem_of_app in Hin as [Hin|Hin].
        -- apply elem_of_app. by left.
        -- apply elem_of_app. right. by right.
Qed.

Lemma broadcast_loop_reaches (send : transport) (msg : message) (x : session)
    (sched : list (list interference)) (i : nat) (conns : list session) :
  undisturbed sched i conns -> (i <= length conns)%nat ->
  (x ∈ drop i conns \/ x ∉ conns) ->
  x ∈ connections_after (broadcast_loop send msg sched i conns) ->
  x ∈ attempted (broadcast_loop send msg sched i conns).
Proof.
  revert i conns. induction sched as [|evs sched IH]; intros i conns Hu Hlen Hx; simpl.
  - rewrite broadcast_rest_spec. unfold attempted. simpl.
    rewrite attempted_quiet. intros Hin. by destruct Hx.
  - simpl in Hu. destruct (conns !! i) as [c|] eqn:Hc.
    + destruct Hu as [Hah Hu].
      assert (ended (broadcast_loop send msg sched (S i) (interfere evs conns))
              = Returned tt) as Hend by apply broadcast_loop_returns.
      assert (try_pass (send c msg) = Returned tt) as -> by by destruct (send c msg).
      unfold attempted. simpl. intros Hin.
      destruct (decide (x = c)) as [->|Hne]; [left|]. right.
      assert (S i <= length conns)%nat as Hlen'.
      { apply lookup_lt_Some in Hc. lia. }
      assert (x ∈ drop (S i) conns \/ x ∉ conns) as Hx'.
      { destruct Hx as [Hx|Hx]; [left|by right].
        rewrite (drop_S conns c i Hc) in Hx.
        apply elem_of_cons in Hx as [->|Hx]; done. }
      destruct (ahead_preserves x evs (S i) conns Hah Hlen' Hx') as [Hlen2 Hx2].
      by apply (IH (S i) (interfere evs conns)).
    + simpl. intros Hin. destruct Hx as [Hx|Hx]; [|done].
      rewrite drop_ge in Hx; [by apply elem_of_nil in Hx|].
      by apply lookup_ge_None.
Qed.

Lemma broadcast_loop_attempts (send : transport) (msg : message)
    (sched : list (list interference)) (i : nat) (conns : list session) :
  attempts (broadcast_loop send msg sched i conns)
  = map (attempt_of send msg) (attempted (broadcast_loop send msg sched i conns)).
Proof.
  revert i conns. induction sched as [|evs sched IH]; intros i conns; simpl.
  - rewrite broadcast_rest_spec. unfold attempted. simpl.
    by rewrite attempted_quiet.
  - destruct (conns !! i) as [c|]; [|done].
    assert (try_pass (send c msg) = Returned tt) as -> by by destruct (send c msg).
    unfold attempted in *. simpl. by rewrite <- IH.
Qed.

Lemma broadcast_loop_received (send : transport) (msg : message)
    (sched : list (list interference)) (i : nat) (conns : list session) :
  received (broadcast_loop send msg sched i conns)
  = filter (fun s => send_succeeds send msg s = true)
      (attempted (broadcast_loop send msg sched i conns)).
Proof.
  unfold received. rewrite broadcast_loop_attempts. apply received_quiet.
Qed.

(** C3 (as the code has it): a broadcast returns normally whatever the
    sends do and whatever happens to the registry meanwhile, for an empty
    registry too, and a failed send stops nothing: the sessions that get
    the message are, in order, those on which [send_text] was called and
    returned. With the registry left alone, [send_text] is called on every
    registered session in order. When every session that unregisters
    meanwhile sits at a position the walk has not reached, every session
    registered at the call and still registered at the end whose send
    returns gets the message. *)
Theorem broadcast_isolates_failures (send : transport) (msg : message)
    (sched : list (list interference)) (conns : list session) :
  ended (broadcast send msg sched conns) = Returned tt
  /\ received (broadcast send msg sched conns)
     = filter (fun s => send_succeeds send msg s = true)
         (attempted (broadcast send msg sched conns))
  /\ attempted (broadcast send msg [] conns) = conns
  /\ received (broadcast send msg [] conns)
     = filter (fun s => send_succeeds send msg s = true) conns
  /\ (undisturbed sched 0 conns ->
      forall s, s ∈ conns ->
        s ∈ connections_after (broadcast send msg sched conns) ->
        send_succeeds send msg s = true ->
        s ∈ received (broadcast send msg sched conns)).
Proof.
  split_and!.
  - apply broadcast_loop_returns.
  - apply broadcast_loop_received.
  - unfold attempted, broadcast. simpl. rewrite broadcast_rest_spec. simpl.
    rewrite drop_0. apply attempted_quiet.
  - unfold received, broadcast. simpl. rewrite broadcast_rest_spec. simpl.
    rewrite drop_0. apply received_quiet.
  - intros Hu s Hin Hafter Hok. unfold broadcast.
    rewrite broadcast_loop_received. apply list_elem_of_filter. split; [done|].
    apply broadcast_loop_reaches; [done|simpl; lia| |done].
    left. by rewrite drop_0.
Qed.

Lemma broadcast_isolates_failures_witness :
  3%nat ∈ received (broadcast flaky MsgPing [[]; [Unregisters 4%nat]]
                      [1; 2; 3; 4]%nat).
Proof.
  destruct (broadcast_isolates_failures flaky MsgPing [[]; [Unregisters 4%nat]]
              [1; 2; 3; 4]%nat) as (_ & _ & _ & _ & H).
  apply H.
  - simpl. split_and!; try done.
    intros Hin. apply list_elem_of_In in Hin. simpl in Hin. intuition discriminate.
  - apply list_elem_of_In. simpl. tauto.
  - apply list_elem_of_In. vm_compute. tauto.
  - reflexivity.
Defined.

(** C3 fails as stated: the send to session 2 fails and session 2
    unregisters during it; session 3, registered throughout and whose send
    would return, is passed over and does not get the message. *)
Lemma broadcast_misses_a_sendable_session :
  let r := broadcast flaky MsgPing [[]; [Unregisters 2%nat]] [1; 2; 3]%nat in
  ended r = Returned tt
  /\ attempted r = [1; 2]%nat
  /\ received r = [1%nat]
  /\ connections_after r = [1; 3]%nat
  /\ (3%nat ∈ [1; 2; 3]%nat)
  /\ (3%nat ∈ connections_after r)
  /\ send_succeeds flaky MsgPing 3%nat = true
  /\ (3%nat ∉ received r).
Proof.
  assert (received (broadcast flaky MsgPing [[]; [Unregisters 2%nat]] [1; 2; 3]%nat)
          = [1%nat]) as Hr by reflexivity.
  assert (connections_after
            (broadcast flaky MsgPing [[]; [Unregisters 2%nat]] [1; 2; 3]%nat)
          = [1; 3]%nat) as Hc by reflexivity.
  cbv zeta. rewrite Hr, Hc. split_and!; try reflexivity.
  - apply list_elem_of_In. simpl. tauto.
  - apply list_elem_of_In. simpl. tauto.
  - intros Hin. apply list_elem_of_In in Hin. simpl in Hin. intuition discriminate.
Qed.

(** C4 (as the code has it): [broadcast] walks the live registry by
    position; it takes no snapshot. It returns normally whatever registers
    or unregisters while it runs, and when every session that unregisters
    meanwhile sits at a position the walk has not reached, every session
    registered at the call and still registered at the end had its
    [send_text] called. *)
Theorem broadcast_walks_live_list (send : transport) (msg : message)
    (sched : list (list interference)) (conns : list session) :
  ended (broadcast send msg sched conns) = Returned tt
  /\ (undisturbed sched 0 conns ->
      forall s, s ∈ conns ->
        s ∈ connections_after (broadcast send msg sched conns) ->
        s ∈ attempted (broadcast send msg sched conns)).
Proof.
  split; [apply broadcast_loop_returns|].
  intros Hu s Hin. apply broadcast_loop_reaches; [done|simpl; lia|].
  left. by rewrite drop_0.
Qed.

Lemma broadcast_walks_live_list_witness :
  2%nat ∈ attempted (broadcast reliable MsgPing [[Unregisters 3%nat]] [1; 2; 3]%nat).
Proof.
  destruct (broadcast_walks_live_list reliable MsgPing
              [[Unregisters 3%nat]] [1; 2; 3]%nat) as [_ H].
  apply H.
  - simpl. split_and!; try done.
    intros Hin. apply list_elem_of_In in Hin. simpl in Hin. intuition discriminate.
  - apply list_elem_of_In. simpl. tauto.
  - apply list_elem_of_In. vm_compute. tauto.
Defined.

(** C4 fails as stated: session 1 unregisters while the message is being
    sent to it; session 2, registered throughout, is passed over. A walk
    over a snapshot would have called [send_text] on 1, 2 and 3. *)
Lemma broadcast_skips_a_session :
  let r := broadcast reliable MsgPing [[Unregisters 1%nat]] [1; 2; 3]%nat in
  attempted r = [1; 3]%nat
  /\ connections_after r = [2; 3]%nat
  /\ (2%nat ∈ [1; 2; 3]%nat)
  /\ (2%nat ∈ connections_after r)
  /\ (2%nat ∉ attempted r).
Proof.
  assert (attempted (broadcast reliable MsgPing [[Unregisters 1%nat]] [1; 2; 3]%nat)
          = [1; 3]%nat) as Ha by reflexivity.
  assert (connections_after (broadcast reliable MsgPing [[Unregisters 1%nat]] [1; 2; 3]%nat)
          = [2; 3]%nat) as Hc by reflexivity.
  cbv zeta. rewrite Ha, Hc. split_and!; try done.
  - apply list_elem_of_In. simpl. tauto.
  - apply list_elem_of_In. simpl. tauto.
  - intros Hin. apply list_elem_of_In in Hin. simpl in Hin. intuition discriminate.
Qed.

(** ** The submit handler *)

Section Submit.
Context {engine : Type}.
Implicit Types (ext : collaborators engine) (w : world engine)
  (req : RefineRequest) (refiner : DocumentRefiner engine).

Lemma only_schedules_refl w : only_schedules w w.
Proof. unfold only_schedules. split_and!; try done. exists []. by rewrite app_nil_r. Qed.

Lemma only_schedules_trans w1 w2 w3 :
  only_schedules w1 w2 -> only_schedules w2 w3 -> only_schedules w1 w3.
Proof.
  intros (H1 & H2 & H3 & m1 & H4) (G1 & G2 & G3 & m2 & G4).
  unfold only_schedules. split_and!; try congruence.
  exists (m1 ++ m2). rewrite G4, H4. by rewrite app_assoc.
Qed.

Lemma schedule_broadcast_frame ext msg w :
  only_schedules w (schedule_broadcast ext msg w).1.
Proof.
  unfold schedule_broadcast. destruct (create_task ext msg); simpl.
  - unfold only_schedules. simpl. split_and!; try done. by exists [msg].
  - apply only_schedules_refl.
Qed.

Lemma bind_frame {A B} (a : action A) (k : A -> action B) w :
  only_schedules w (a w).1 ->
  (forall x w', only_schedules w' (k x w').1) ->
  only_schedules w (action_bind a k w).1.
Proof.
  intros Ha Hk. unfold action_bind. destruct (a w) as [w' [x|e]]; simpl in *.
  - eapply only_schedules_trans; [exact Ha|apply Hk].
  - done.
Qed.

Lemma run_job_frame ext refiner text w :
  only_schedules w (run_job ext refiner text w).1.
Proof.
  unfold run_job, update_progress, call.
  repeat (apply bind_frame; [first [apply schedule_broadcast_frame
                                   | apply only_schedules_refl]|intros ??]).
  apply only_schedules_refl.
Qed.

Lemma handle_job_failure_frame ext refiner e w :
  only_schedules w (handle_job_failure ext refiner e w).1.
Proof.
  unfold handle_job_failure, show_error, call.
  destruct (is_HTTPException e); simpl; [apply only_schedules_refl|].
  pose proof (schedule_broadcast_frame ext
    (MsgError (lit "Refinement failed: " ++ exception_str ext e)) w) as H.
  by destruct (schedule_broadcast ext _ w).
Qed.

Lemma refine_nonblank ext req w :
  blank (manuscriptText req) = false ->
  refine ext req w =
  match get_refiner ext (request_settings ext req (heap w)).1
          (set_heap (request_settings ext req (heap w)).2 w) with
  | (w1, Raised e) => (w1, Raised e)
  | (w1, Returned refiner) =>
      match run_job ext refiner (manuscriptText req) w1 with
      | (w2, Returned resp) => (w2, Returned resp)
      | (w2, Raised e) => handle_job_failure ext refiner e w2
      end
  end.
Proof.
  intros Hb. unfold refine. rewrite Hb.
  by destruct (request_settings ext req (heap w)).
Qed.

Lemma get_refiner_cached ext settings w p :
  nlp_processor w = Some p ->
  get_refiner ext settings w
  = (w, Returned {| refiner_settings := or_default ext (heap w) settings;
                    view := mkBroadcastingView;
                    refiner_nlp_processor := p |}).
Proof. intros H. unfold get_refiner. by rewrite H. Qed.

Lemma refine_keeps_processor ext req w p :
  nlp_processor w = Some p -> nlp_processor (refine ext req w).1 = Some p.
Proof.
  intros Hp. destruct (blank (manuscriptText req)) eqn:Hb.
  - unfold refine. by rewrite Hb.
  - rewrite refine_nonblank by done.
    rewrite (get_refiner_cached _ _ _ p) by done.
    set (w0 := set_heap _ w). set (r := Build_DocumentRefiner _ _ _).
    pose proof (run_job_frame ext r (manuscriptText req) w0) as (_ & H1 & _).
    destruct (run_job ext r (manuscriptText req) w0) as [w2 [resp|e]]; simpl in *.
    + by rewrite H1.
    + pose proof (handle_job_failure_frame ext r e w2) as (_ & H2 & _).
      by rewrite H2, H1.
Qed.

Lemma serve_keeps_processor (reqs : list (collaborators engine * RefineRequest)) w p :
  nlp_processor w = Some p -> nlp_processor (serve reqs w).1 = Some p.
Proof.
  revert w. induction reqs as [|[ext req] reqs IH]; intros w Hp; simpl; [done|].
  pose proof (refine_keeps_processor ext req w p Hp) as H1.
  destruct (refine ext req w) as [w1 r]. simpl in H1.
  specialize (IH w1 H1). by destruct (serve reqs w1).
Qed.

(** C1: a request whose text is empty or only whitespace gets the
    all-empty result; the globals (cached processor, task queue, store,
    registry) are left as they were and no collaborator is consulted: the
    result is the same whatever the collaborators would do. *)
Theorem refine_blank_text ext req w :
  Forall (fun c => isspace c = true) (manuscriptText req) ->
  refine ext req w
  = (w, Returned {| processedText := []; bibliographyText := []; bibtex := [] |}).
Proof.
  intros H. unfold refine, blank. rewrite (strip_spaces _ H). simpl.
  by rewrite orb_true_r.
Qed.

Lemma refine_constructs ext req w p :
  blank (manuscriptText req) = false ->
  nlp_processor w = None ->
  construction ext req w = Returned p ->
  nlp_processor (refine ext req w).1 = Some p.
Proof.
  intros Hb Hn Hc. rewrite refine_nonblank by done.
  unfold construction, job_settings in Hc.
  destruct (request_settings ext req (heap w)) as [s h]. simpl in *.
  unfold get_refiner. simpl. rewrite Hn, Hc.
  set (w0 := set_nlp_processor _ _). set (r := Build_DocumentRefiner _ _ _).
  pose proof (run_job_frame ext r (manuscriptText req) w0) as (_ & H1 & _).
  destruct (run_job ext r (manuscriptText req) w0) as [w2 [resp|e']]; simpl in *.
  - by rewrite H1.
  - pose proof (handle_job_failure_frame ext r e' w2) as (_ & H2 & _).
    by rewrite H2, H1.
Qed.

(** C7: when the processor cannot be built, the request fails with
    [HTTPException(503)] whose detail carries the text of the construction
    error; nothing is scheduled for broadcast; the cache stays empty, and
    the next request builds the processor again and, when that succeeds,
    caches it. *)
Theorem engine_failure_not_sticky ext req w e :
  blank (manuscriptText req) = false ->
  nlp_processor w = None ->
  construction ext req w = Raised e ->
  (refine ext req w).2
  = Raised (HTTPException 503
      (lit "NLP processor unavailable: " ++ exception_str ext e))
  /\ tasks (refine ext req w).1 = tasks w
  /\ active_connections (refine ext req w).1 = active_connections w
  /\ nlp_processor (refine ext req w).1 = None
  /\ forall ext' req' p,
       blank (manuscriptText req') = false ->
       construction ext' req' (refine ext req w).1 = Returned p ->
       nlp_processor (refine ext' req' (refine ext req w).1).1 = Some p.
Proof.
  intros Hb Hn Hc.
  assert (refine ext req w
          = (set_heap (request_settings ext req (heap w)).2 w,
             Raised (HTTPException 503
               (lit "NLP processor unavailable: " ++ exception_str ext e)))) as ->.
  { rewrite refine_nonblank by done.
    unfold construction, job_settings in Hc.
    destruct (request_settings ext req (heap w)) as [s h]. simpl in *.
    unfold get_refiner. simpl. by rewrite Hn, Hc. }
  simpl. split_and!; try done.
  intros ext' req' p Hb' Hc'. by apply refine_constructs.
Qed.

(** C8 (as the code has it): when a stage of the job raises an exception
    that is not an [HTTPException], the error event is scheduled for
    broadcast, unless scheduling itself raises, which is dropped, and the
    request fails with [HTTPException(500)] whose detail is the text of the
    stage's exception; an [HTTPException] raised by a stage goes to the
    caller as it is, with no error event; and a result that is returned
    always holds what the three stages returned. *)
Theorem stage_failure_reported ext req w :
  blank (manuscriptText req) = false ->
  (forall w1 w2 refiner e,
     get_refiner ext (request_settings ext req (heap w)).1
       (set_heap (request_settings ext req (heap w)).2 w) = (w1, Returned refiner) ->
     run_job ext refiner (manuscriptText req) w1 = (w2, Raised e) ->
     (is_HTTPException e = false ->
        refine ext req w
        = (after_report ext e w2, Raised (HTTPException 500 (exception_str ext e))))
     /\ (is_HTTPException e = true -> refine ext req w = (w2, Raised e)))
  /\ (forall w' resp,
        refine ext req w = (w', Returned resp) ->
        exists refiner,
          refine_document ext refiner (manuscriptText req)
            = Returned (processedText resp)
          /\ generate_bibliography_text ext refiner = Returned (bibliographyText resp)
          /\ generate_bibtex_content ext refiner = Returned (bibtex resp)).
Proof.
  intros Hb. split.
  - intros w1 w2 refiner e Hg Hr. rewrite refine_nonblank by done.
    rewrite Hg, Hr. unfold handle_job_failure, after_report, show_error,
      schedule_broadcast, call.
    split; intros ->; [|done].
    by destruct (create_task ext _).
  - intros w' resp. rewrite refine_nonblank by done.
    destruct (get_refiner ext _ _) as [w1 [refiner|e]]; [|done].
    destruct (run_job ext refiner (manuscriptText req) w1) as [w2 [resp'|e]] eqn:Hr.
    + intros [= -> ->]. exists refiner.
      unfold run_job, action_bind, update_progress, schedule_broadcast, call in Hr.
      destruct (create_task ext (MsgProgress 0 _)); [|done].
      destruct (refine_document ext refiner _); [|done].
      destruct (create_task ext (MsgProgress (98 # 100) _)); [|done].
      destruct (generate_bibliography_text ext refiner); [|done].
      destruct (generate_bibtex_content ext refiner); [|done].
      destruct (create_task ext (MsgProgress 1 _)); [|done].
      by injection Hr as _ <-.
    + unfold handle_job_failure, call. destruct (is_HTTPException e); [done|].
      by destruct (show_error ext _ _ w2).
Qed.

(** C10: when no processor is cached, a request with text builds one from
    the settings of that request and caches it; from then on every request,
    whatever its overrides, leaves the cached processor in place, and
    [get_refiner] hands out that processor inside a new refiner that
    carries the request's own settings, without building anything. *)
Theorem processor_built_once ext req w p :
  blank (manuscriptText req) = false ->
  nlp_processor w = None ->
  construction ext req w = Returned p ->
  nlp_processor (refine ext req w).1 = Some p
  /\ forall reqs,
       nlp_processor (serve reqs (refine ext req w).1).1 = Some p
       /\ forall ext' settings,
            get_refiner ext' settings (serve reqs (refine ext req w).1).1
            = ((serve reqs (refine ext req w).1).1,
               Returned {| refiner_settings :=
                             or_default ext'
                               (heap (serve reqs (refine ext req w).1).1) settings;
                           view := mkBroadcastingView;
                           refiner_nlp_processor := p |}).
Proof.
  intros Hb Hn Hc.
  pose proof (refine_constructs ext req w p Hb Hn Hc) as H1.
  split; [done|]. intros reqs.
  pose proof (serve_keeps_processor reqs _ p H1) as H2.
  split; [done|]. intros ext' settings. by apply get_refiner_cached.
Qed.

End Submit.

Lemma refine_blank_text_witness :
  refine sample_ext
    {| manuscriptText := lit "   "; maxResults := Some 10; noCache := None |}
    sample_world
  = (sample_world,
     Returned {| processedText := []; bibliographyText := []; bibtex := [] |}).
Proof.
  apply (refine_blank_text sample_ext
           {| manuscriptText := lit "   "; maxResults := Some 10; noCache := None |}
           sample_world).
  simpl. repeat constructor.
Defined.

Lemma engine_failure_not_sticky_witness :
  (refine ext_no_engine sample_request sample_world).2
  = Raised (HTTPException 503 (lit "NLP processor unavailable: model missing"))
  /\ tasks (refine ext_no_engine sample_request sample_world).1 = []
  /\ nlp_processor
       (refine sample_ext other_request
          (refine ext_no_engine sample_request sample_world).1).1 = Some 42%nat.
Proof.
  destruct (engine_failure_not_sticky ext_no_engine sample_request sample_world
              (RuntimeError (lit "model missing")))
    as (H1 & H2 & _ & _ & H5); [reflexivity|reflexivity|reflexivity|].
  split_and!; [exact H1|exact H2|].
  apply H5; reflexivity.
Defined.

Lemma stage_failure_reported_witness :
  (refine (ext_stage_raises (ValueError (lit "boom")) false)
     sample_request sample_world).2
  = Raised (HTTPException 500 (lit "boom")).
Proof.
  destruct (stage_failure_reported (ext_stage_raises (ValueError (lit "boom")) false)
              sample_request sample_world) as [H _]; [reflexivity|].
  edestruct H as [H1 _]; [reflexivity|reflexivity|].
  rewrite H1; reflexivity.
Defined.

(** C8 fails as stated: the refinement stage raises an [HTTPException];
    the caller gets that exception, not a 500, and the only event scheduled
    is the first progress event. *)
Lemma stage_http_exception_passes :
  (refine (ext_stage_raises (HTTPException 429 (lit "rate limited")) false)
     sample_request sample_world).2
  = Raised (HTTPException 429 (lit "rate limited"))
  /\ tasks (refine (ext_stage_raises (HTTPException 429 (lit "rate limited")) false)
              sample_request sample_world).1
     = [MsgProgress 0 (lit "Starting DeepSearch refinement...")].
Proof. split; vm_compute; reflexivity. Qed.

Lemma processor_built_once_witness :
  nlp_processor
    (serve [(ext_no_engine, other_request)]
       (refine sample_ext sample_request sample_world).1).1 = Some 42%nat.
Proof.
  destruct (processor_built_once sample_ext sample_request sample_world 42%nat)
    as [_ H]; [reflexivity|reflexivity|reflexivity|].
  destruct (H [(ext_no_engine, other_request)]) as [H1 _]. exact H1.
Defined.

(** ** The streaming endpoint *)

Lemma endpoint_unregisters_on_disconnect (script : list turn)
    (websocket : session) (conns : list session) :
  keepalive script = Some WebSocketDisconnect ->
  websocket_endpoint (Returned tt) script [] websocket conns
  = ((disconnect websocket (conns ++ [websocket])).1,
     Ended (disconnect websocket (conns ++ [websocket])).2).
Proof.
  intros H. unfold websocket_endpoint. simpl. rewrite H. simpl.
  by destruct (disconnect websocket (conns ++ [websocket])).
Qed.

Lemma endpoint_keeps_session_on_other_exception (script : list turn)
    (e : exception) (websocket : session) (conns : list session) :
  keepalive script = Some e -> is_WebSocketDisconnect e = false ->
  websocket_endpoint (Returned tt) script [] websocket conns
  = (conns ++ [websocket], Ended (Raised e)).
Proof.
  intros H He. unfold websocket_endpoint. simpl. by rewrite H, He.
Qed.

(** C9, at the failing input: session 5 is idle, the ping cannot be sent
    and [send_text] raises an exception other than [WebSocketDisconnect];
    the endpoint ends with that exception and session 5 stays in the
    registry. *)
Theorem failed_ping_leaves_session_registered :
  websocket_endpoint (Returned tt)
    [{| inbound := Raised TimeoutError;
        ping := Raised (RuntimeError (lit "send after close")) |}]
    [] 5%nat [4%nat]
  = ([4; 5]%nat, Ended (Raised (RuntimeError (lit "send after close")))).
Proof. reflexivity. Qed.

(** ** Deep copies *)

Section Deepcopy.
Variable h0 : store.

Lemma copy_items_total (rec : pyval -> copy_state -> option (pyval * copy_state))
    (l' : loc) (n : nat) :
  (forall v m h, (size (dom h0 ∖ dom m) < n)%nat ->
     exists v' m' h', rec v (m, h) = Some (v', (m', h')) /\ dom m ⊆ dom m') ->
  forall items m h, (size (dom h0 ∖ dom m) < n)%nat ->
    exists m' h', copy_items rec l' items (m, h) = Some (m', h') /\ dom m ⊆ dom m'.
Proof.
  intros Hrec items. induction items as [|[k v] items IH]; intros m h Hn; simpl.
  - by exists m, h.
  - destruct (Hrec v m h Hn) as (v' & m1 & h1 & -> & Hsub).
    destruct (IH m1 (<[l' := <[k := v']> (default ∅ (h1 !! l'))]> h1))
      as (m2 & h2 & -> & Hsub2).
    + eapply Nat.le_lt_trans; [|exact Hn]. apply subseteq_size. set_solver.
    + exists m2, h2. split; [done|set_solver].
Qed.

Lemma deepcopy_aux_total (fuel : nat) (v : pyval) (m : gmap loc loc) (h : store) :
  (size (dom h0 ∖ dom m) < fuel)%nat ->
  exists v' m' h',
    deepcopy_aux fuel h0 v (m, h) = Some (v', (m', h')) /\ dom m ⊆ dom m'.
Proof.
  revert v m h. induction fuel as [|fuel IH]; intros v m h Hn; [lia|].
  destruct v as [| | | | |l]; try (by eexists _, m, h).
  simpl. destruct (m !! l) as [l'|] eqn:Hm; [by eexists _, m, h|].
  destruct (h0 !! l) as [d|] eqn:Hl; [|by eexists _, m, h].
  destruct (copy_items_total (deepcopy_aux fuel h0) (fresh (dom h)) fuel IH
              (map_to_list d) (<[l := fresh (dom h)]> m) (<[fresh (dom h) := ∅]> h))
    as (m2 & h2 & -> & Hsub).
  - assert (dom h0 ∖ dom (<[l := fresh (dom h)]> m) ⊂ dom h0 ∖ dom m) as Hlt.
    { apply not_elem_of_dom in Hm. apply elem_of_dom_2 in Hl. split.
      - rewrite dom_insert_L. set_solver.
      - intros Hsub. specialize (Hsub l). rewrite dom_insert_L in Hsub.
        set_solver. }
    apply subset_size in Hlt. lia.
  - eexists _, m2, h2. split; [done|]. rewrite dom_insert_L in Hsub. set_solver.
Qed.

Lemma lookup_put_all (f : pyval -> pyval) (items : list (string * pyval))
    (acc : gmap string pyval) (k : string) :
  NoDup items.*1 ->
  put_all f acc items !! k
  = match (list_to_map items : gmap string pyval) !! k with
    | Some v => Some (f v)
    | None => acc !! k
    end.
Proof.
  revert acc. induction items as [|[k' v] items IH]; intros acc Hnd.
  { simpl. by rewrite lookup_empty. }
  rewrite fmap_cons in Hnd. apply NoDup_cons in Hnd as [Hni Hnd].
  unfold put_all in *. simpl. rewrite (IH _ Hnd).
  destruct (decide (k' = k)) as [->|Hne].
  - rewrite (not_elem_of_list_to_map_1 items k Hni). by rewrite !lookup_insert_eq.
  - rewrite !lookup_insert_ne by done. done.
Qed.

Lemma put_all_map_to_list (f : pyval -> pyval) (d : gmap string pyval) :
  put_all f ∅ (map_to_list d) = f <$> d.
Proof.
  apply map_eq. intros k.
  rewrite lookup_put_all by apply NoDup_fst_map_to_list.
  rewrite list_to_map_to_list, lookup_fmap.
  by destruct (d !! k).
Qed.

Lemma rename_grow (m m' : gmap loc loc) (v : pyval) :
  m ⊆ m' ->
  (forall x, v = VRef x -> x ∈ dom m \/ x ∉ dom m') ->
  rename m' v = rename m v.
Proof.
  intros Hsub Hv. destruct v as [| | | | |x]; try done. simpl.
  destruct (Hv x eq_refl) as [Hx|Hx].
  - apply elem_of_dom in Hx as [x' Hx]. rewrite Hx.
    by rewrite (lookup_weaken _ _ _ _ Hx Hsub).
  - apply not_elem_of_dom in Hx. rewrite Hx.
    by rewrite (lookup_weaken_None _ _ _ Hx Hsub).
Qed.

Lemma copy_inv_write (P : gset loc) (m : gmap loc loc) (h : store)
    (l l' : loc) (d' : gmap string pyval) :
  copy_inv h0 P m h -> l ∈ P -> m !! l = Some l' ->
  copy_inv h0 P m (<[l' := d']> h).
Proof.
  intros [I1 I2 I3 I4] HP Hm.
  destruct (I2 l l' Hm) as (Hl0 & Hl'h & Hl'0).
  split.
  - intros y d Hy. rewrite lookup_insert_ne; [by apply I1|].
    intros ->. apply Hl'0. by apply elem_of_dom_2 in Hy.
  - intros y y' Hy. destruct (I2 y y' Hy) as (? & ? & ?).
    split_and!; try done. rewrite dom_insert_L. set_solver.
  - done.
  - intros y y' Hy HyP. destruct (I4 y y' Hy HyP) as (d & Hd & Hc & Hcov).
    exists d. split_and!; try done.
    rewrite lookup_insert_ne; [done|].
    intros <-. assert (l = y) by by eapply I3. congruence.
Qed.

Lemma copy_inv_alloc (P : gset loc) (m : gmap loc loc) (h : store)
    (l : loc) (d : gmap string pyval) :
  copy_inv h0 P m h -> m !! l = None -> h0 !! l = Some d ->
  copy_inv h0 (P ∪ {[l]}) (<[l := fresh (dom h)]> m) (<[fresh (dom h) := ∅]> h).
Proof.
  intros [I1 I2 I3 I4] Hm Hl.
  pose proof (is_fresh (dom h)) as Hfresh.
  assert (fresh (dom h) ∉ dom h0) as Hfresh0.
  { intros Hin. apply elem_of_dom in Hin as [d' Hd'].
    apply Hfresh. apply I1 in Hd'. by apply elem_of_dom_2 in Hd'. }
  split.
  - intros y dy Hy. rewrite lookup_insert_ne; [by apply I1|].
    intros <-. apply Hfresh0. by apply elem_of_dom_2 in Hy.
  - intros y y' Hy. rewrite dom_insert_L.
    destruct (decide (l = y)) as [<-|Hne].
    + rewrite lookup_insert_eq in Hy. injection Hy as <-.
      split_and!; [by apply elem_of_dom_2 in Hl|set_solver|done].
    + rewrite lookup_insert_ne in Hy by done.
      destruct (I2 y y' Hy) as (? & ? & ?). split_and!; [done|set_solver|done].
  - intros y1 y2 y' H1 H2.
    destruct (decide (l = y1)) as [<-|Hne1], (decide (l = y2)) as [<-|Hne2];
      [done| | |].
    + rewrite lookup_insert_eq in H1. injection H1 as <-.
      rewrite lookup_insert_ne in H2 by done.
      destruct (I2 y2 _ H2) as (_ & ? & _). done.
    + rewrite lookup_insert_eq in H2. injection H2 as <-.
      rewrite lookup_insert_ne in H1 by done.
      destruct (I2 y1 _ H1) as (_ & ? & _). done.
    + rewrite lookup_insert_ne in H1, H2 by done. by eapply I3.
  - intros y y' Hy HyP.
    assert (l ≠ y) as Hne by set_solver.
    rewrite lookup_insert_ne in Hy by done.
    destruct (I4 y y' Hy) as (dy & Hdy & Hc & Hcov); [set_solver|].
    destruct (I2 y y' Hy) as (_ & Hy'h & _).
    exists dy. split_and!; [done| |].
    + rewrite lookup_insert_ne by (intros <-; done).
      rewrite Hc. f_equal. apply map_fmap_ext. intros k v Hkv. symmetry.
      apply rename_grow; [by apply insert_subseteq|].
      intros x ->. destruct (decide (x ∈ dom h0)) as [Hx|Hx].
      * left. by eapply Hcov.
      * right. rewrite dom_insert_L. intros Hin.
        apply elem_of_union in Hin as [Hin|Hin].
        -- apply elem_of_singleton in Hin as ->. by apply elem_of_dom_2 in Hl.
        -- apply elem_of_dom in Hin as [x' Hx']. by destruct (I2 x x' Hx').
    + intros k x Hkx Hx. rewrite dom_insert_L. specialize (Hcov k x Hkx Hx). set_solver.
Qed.

Lemma copy_items_spec (rec : pyval -> copy_state -> option (pyval * copy_state))
    (P : gset loc) (l l' : loc) :
  l ∈ P ->
  (forall v m h v' m' h',
     rec v (m, h) = Some (v', (m', h')) -> copy_inv h0 P m h ->
     copy_post h0 P v m h v' m' h') ->
  forall items m h m' h' acc,
    copy_items rec l' items (m, h) = Some (m', h') ->
    copy_inv h0 P m h -> m !! l = Some l' -> h !! l' = Some acc ->
    copy_inv h0 P m' h' /\ m ⊆ m'
    /\ (forall y, y ∈ dom h -> y ≠ l' -> h' !! y = h !! y)
    /\ h' !! l' = Some (put_all (rename m') acc items)
    /\ (forall k x, (k, VRef x) ∈ items -> x ∈ dom h0 -> x ∈ dom m').
Proof.
  intros HP Hrec items.
  induction items as [|[k v] items IH]; intros m h m' h' acc Hrun Hinv Hm Hacc.
  - simpl in Hrun. injection Hrun as <- <-. split_and!; try done.
    intros k x Hin. by apply elem_of_nil in Hin.
  - simpl in Hrun.
    destruct (rec v (m, h)) as [[v1 [m1 h1]]|] eqn:Hv; [|done].
    destruct (Hrec _ _ _ _ _ _ Hv Hinv) as (Hinv1 & Hsub1 & Hfr1 & -> & Hcov1).
    assert (m1 !! l = Some l') as Hm1 by by eapply lookup_weaken.
    assert (h1 !! l' = Some acc) as Hacc1.
    { rewrite Hfr1; [done|]. by apply elem_of_dom_2 in Hacc. }
    rewrite Hacc1 in Hrun. simpl in Hrun.
    destruct (IH _ _ _ _ (<[k := rename m1 v]> acc) Hrun)
      as (Hinv2 & Hsub2 & Hfr2 & Hl' & Hcov2).
    { by eapply copy_inv_write. }
    { done. }
    { by rewrite lookup_insert_eq. }
    assert (rename m' v = rename m1 v) as Hren.
    { apply rename_grow; [done|]. intros x ->.
      destruct (decide (x ∈ dom h0)) as [Hx|Hx].
      - left. by apply Hcov1.
      - right. intros Hin. apply elem_of_dom in Hin as [x' Hx'].
        by destruct (inv_memo _ _ _ _ Hinv2 x x' Hx'). }
    split_and!.
    + done.
    + by etrans.
    + intros y Hy Hne. rewrite Hfr2.
      * rewrite lookup_insert_ne by done. by apply Hfr1.
      * rewrite dom_insert_L. apply elem_of_union. right.
        apply elem_of_dom. rewrite Hfr1 by done. by apply elem_of_dom.
      * done.
    + rewrite Hl'. unfold put_all. simpl. by rewrite Hren.
    + intros k0 x Hin Hx. apply elem_of_cons in Hin as [[= -> <-]|Hin].
      * specialize (Hcov1 x eq_refl Hx).
        apply elem_of_dom in Hcov1 as [x' Hx'].
        apply elem_of_dom. exists x'. by eapply lookup_weaken.
      * by eapply Hcov2.
Qed.

Lemma deepcopy_aux_spec (fuel : nat) (P : gset loc) (v : pyval)
    (m : gmap loc loc) (h : store) (v' : pyval) (m' : gmap loc loc) (h' : store) :
  deepcopy_aux fuel h0 v (m, h) = Some (v', (m', h')) ->
  copy_inv h0 P m h ->
  copy_post h0 P v m h v' m' h'.
Proof.
  revert P v m h v' m' h'.
  induction fuel as [|fuel IH]; intros P v m h v' m' h' Hrun Hinv.
  all: destruct v as [| | | | |l];
    try (injection Hrun as <- <- <-; by split_and!).
  all: simpl in Hrun; destruct (m !! l) as [l1|] eqn:Hm.
  all: try (injection Hrun as <- <- <-; split_and!; try done;
            [by simpl; rewrite Hm
            |intros x [= <-] _; by apply elem_of_dom_2 in Hm]).
  all: destruct (h0 !! l) as [d|] eqn:Hl.
  all: try (injection Hrun as <- <- <-; split_and!; try done;
            [by simpl; rewrite Hm
            |intros x [= <-] Hx; apply elem_of_dom in Hx as [? Hx]; congruence]).
  { done. }
  destruct (copy_items _ _ _ _) as [[m2 h2]|] eqn:Hitems; [|done].
  injection Hrun as <- <- <-.
  pose proof (is_fresh (dom h)) as Hfresh.
  assert (l ∈ P ∪ {[l]}) as HlP by set_solver.
  destruct (copy_items_spec (deepcopy_aux fuel h0) (P ∪ {[l]}) l (fresh (dom h)) HlP
              (fun v m h v' m' h' Hr Hi => IH _ _ _ _ _ _ _ Hr Hi)
              _ _ _ _ _ ∅ Hitems)
    as (Hinv2 & Hsub2 & Hfr2 & Hl' & Hcov2).
  - by apply copy_inv_alloc with (d := d).
  - by rewrite lookup_insert_eq.
  - by rewrite lookup_insert_eq.
  - assert (m2 !! l = Some (fresh (dom h))) as Hm2.
    { eapply lookup_weaken; [|exact Hsub2]. by rewrite lookup_insert_eq. }
    rewrite put_all_map_to_list in Hl'.
    destruct Hinv2 as [I1 I2 I3 I4].
    split_and!.
    + split; try done.
      intros y y' Hy HyP. destruct (decide (y = l)) as [->|Hne].
      * assert (y' = fresh (dom h)) as -> by congruence.
        exists d. split_and!; try done.
        intros k x Hkx. apply (Hcov2 k). by apply elem_of_map_to_list.
      * apply I4; [done|set_solver].
    + etrans; [|exact Hsub2]. by apply insert_subseteq.
    + intros y Hy. rewrite Hfr2.
      * rewrite lookup_insert_ne; [done|]. intros <-. done.
      * rewrite dom_insert_L. set_solver.
      * intros ->. done.
    + simpl. by rewrite Hm2.
    + intros x [= <-] _. by apply elem_of_dom_2 in Hm2.
Qed.

End Deepcopy.

Lemma copy_inv_start (h : store) : copy_inv h ∅ ∅ h.
Proof. split; try done. Qed.

Lemma deepcopy_spec (h : store) (x : pyval) :
  exists m,
    copy_post h ∅ x ∅ h (deepcopy h x).1 m (deepcopy h x).2.
Proof.
  unfold deepcopy.
  destruct (deepcopy_aux_total h (S (size h)) x ∅ h) as (y & m & h' & Hrun & _).
  { rewrite dom_empty_L, difference_empty_L, size_dom. lia. }
  rewrite Hrun. exists m. simpl.
  eapply deepcopy_aux_spec; [exact Hrun|apply copy_inv_start].
Qed.

Lemma deepcopy_opaque (h : store) (l : loc) :
  h !! l = None -> deepcopy h (VRef l) = (VRef l, h).
Proof. intros H. unfold deepcopy. simpl. by rewrite lookup_empty, H. Qed.

Lemma rename_fresh (h0 : store) (P : gset loc) (m : gmap loc loc) (h : store)
    (d : gmap string pyval) (k : string) (x : loc) :
  copy_inv h0 P m h ->
  (forall k x, d !! k = Some (VRef x) -> x ∈ dom h0 -> x ∈ dom m) ->
  (rename m <$> d) !! k = Some (VRef x) -> x ∉ dom h0.
Proof.
  intros Hinv Hcov. rewrite lookup_fmap.
  destruct (d !! k) as [v|] eqn:Hk; [|done]. simpl.
  destruct v as [| | | | |y]; try done. simpl.
  destruct (m !! y) as [y'|] eqn:Hy.
  - intros [= <-]. by destruct (inv_memo _ _ _ _ Hinv y y' Hy) as (_ & _ & ?).
  - intros [= <-] Hin. apply not_elem_of_dom in Hy. apply Hy. by eapply Hcov.
Qed.

Lemma deepcopy_isolated (h : store) (l : loc) :
  isolated h (deepcopy h (VRef l)).2 (deepcopy h (VRef l)).1.
Proof.
  destruct (h !! l) as [d|] eqn:Hl.
  - destruct (deepcopy_spec h (VRef l)) as (m & Hinv & _ & Hfr & Hy & Hcov).
    assert (l ∈ dom m) as Hlm by (apply Hcov; [done|by apply elem_of_dom_2 in Hl]).
    apply elem_of_dom in Hlm as [l' Hl'].
    rewrite Hy. simpl. rewrite Hl'. split.
    + apply map_subseteq_spec. intros y dy Hdy. by apply (inv_frame _ _ _ _ Hinv).
    + intros ? [= <-].
      destruct (inv_memo _ _ _ _ Hinv l l' Hl') as (_ & _ & Hl'0).
      split; [done|]. intros d' k x Hd' Hkx.
      destruct (inv_done _ _ _ _ Hinv l l' Hl') as (d0 & Hd0 & Hc & Hcov0); [set_solver|].
      rewrite Hc in Hd'. injection Hd' as <-.
      by eapply rename_fresh.
  - rewrite deepcopy_opaque by done. simpl. split; [done|].
    intros ? [= <-]. split; [by apply not_elem_of_dom|]. congruence.
Qed.

Lemma try_set_nested_isolated (h0 h : store) (s : pyval) (section key : string)
    (v : pyval) :
  (forall x, v ≠ VRef x) ->
  isolated h0 h s -> isolated h0 (try_set_nested h s section key v) s.
Proof.
  intros Hv [Hsub Hs]. unfold try_set_nested, getitem.
  destruct s as [| | | | |l]; try done.
  destruct (Hs l eq_refl) as [Hl Hrefs].
  destruct (h !! l) as [d|] eqn:Hd; [|done].
  assert (forall k x, d !! k = Some (VRef x) -> x ∉ dom h0) as Hd0.
  { intros k x. by apply Hrefs. }
  clear Hrefs.
  destruct (d !! section) as [sub|] eqn:Hsec; [|done].
  unfold setitem. destruct sub as [| | | | |l2]; try done.
  destruct (h !! l2) as [d2|] eqn:Hd2; [|done]. simpl.
  assert (l2 ∉ dom h0) as Hl2 by by eapply Hd0.
  split.
  - apply insert_subseteq_r; [|done]. by apply not_elem_of_dom.
  - intros ? [= <-]. split; [done|]. intros d' k x Hd' Hkx.
    destruct (decide (l2 = l)) as [->|Hne].
    + rewrite lookup_insert_eq in Hd'. injection Hd' as <-.
      destruct (decide (key = k)) as [->|Hk].
      * rewrite lookup_insert_eq in Hkx. injection Hkx as ->. by destruct (Hv x).
      * rewrite lookup_insert_ne in Hkx by done.
        assert (d2 = d) as -> by congruence. exact (Hd0 _ _ Hkx).
    + rewrite lookup_insert_ne in Hd' by done.
      assert (d' = d) as -> by congruence. exact (Hd0 _ _ Hkx).
Qed.

Lemma request_settings_isolated {engine} (ext : collaborators engine)
    (req : RefineRequest) (h : store) :
  isolated h (request_settings ext req h).2 (request_settings ext req h).1.
Proof.
  unfold request_settings.
  pose proof (deepcopy_isolated h (DEFAULT_SETTINGS ext)) as H.
  destruct (deepcopy h (VRef (DEFAULT_SETTINGS ext))) as [s h1]. simpl in *.
  assert (isolated h
            match maxResults req with
            | Some n =>
                if 0 <? n
                then try_set_nested h1 s "search_settings" "max_results" (VInt n)
                else h1
            | None => h1
            end s) as H1.
  { destruct (maxResults req) as [n|]; [|done].
    destruct (0 <? n); [|done]. by apply try_set_nested_isolated. }
  destruct (noCache req) as [[|]|]; try done.
  by apply try_set_nested_isolated.
Qed.

Lemma get_refiner_heap {engine} (ext : collaborators engine) (settings : pyval)
    (w : world engine) :
  heap (get_refiner ext settings w).1 = heap w.
Proof.
  unfold get_refiner. destruct (nlp_processor w); [done|].
  by destruct (NLPProcessor ext _ _).
Qed.

Lemma refine_heap {engine} (ext : collaborators engine) (req : RefineRequest)
    (w : world engine) :
  heap (refine ext req w).1
  = if blank (manuscriptText req) then heap w
    else (request_settings ext req (heap w)).2.
Proof.
  destruct (blank (manuscriptText req)) eqn:Hb.
  - unfold refine. by rewrite Hb.
  - rewrite refine_nonblank by done.
    pose proof (get_refiner_heap ext (request_settings ext req (heap w)).1
                  (set_heap (request_settings ext req (heap w)).2 w)) as Hg.
    destruct (get_refiner ext _ _) as [w1 [refiner|e]]; simpl in *; [|done].
    pose proof (run_job_frame ext refiner (manuscriptText req) w1) as (H1 & _).
    destruct (run_job ext refiner _ w1) as [w2 [resp|e]]; simpl in *.
    + congruence.
    + pose proof (handle_job_failure_frame ext refiner e w2) as (H2 & _).
      congruence.
Qed.

Lemma request_settings_opaque {engine} (ext : collaborators engine)
    (req : RefineRequest) (h : store) :
  h !! DEFAULT_SETTINGS ext = None ->
  request_settings ext req h = (VRef (DEFAULT_SETTINGS ext), h).
Proof.
  intros H. unfold request_settings. rewrite deepcopy_opaque by done.
  unfold try_set_nested, getitem.
  destruct (maxResults req) as [n|]; [destruct (0 <? n)|];
    destruct (noCache req) as [[|]|];
    repeat (rewrite H; cbv beta iota); reflexivity.
Qed.

(** C6: a request, whether it returns or raises, leaves every dictionary
    that existed before it as it was: the store after the request extends
    the store before it. [DEFAULT_SETTINGS] and the dictionaries it refers
    to are among them; the overrides are written into dictionaries made for
    the request. The same holds across any sequence of requests. *)
Theorem defaults_never_mutated {engine} (ext : collaborators engine)
    (req : RefineRequest) (w : world engine) :
  heap w ⊆ heap (refine ext req w).1
  /\ heap (refine ext req w).1 !! DEFAULT_SETTINGS ext
     = heap w !! DEFAULT_SETTINGS ext
  /\ forall reqs, heap w ⊆ heap (serve reqs w).1.
Proof.
  assert (forall (ext : collaborators engine) req w, heap w ⊆ heap (refine ext req w).1)
    as Hone.
  { clear. intros ext req w. rewrite refine_heap.
    destruct (blank (manuscriptText req)); [done|].
    by destruct (request_settings_isolated ext req (heap w)) as [H _]. }
  split_and!; [apply Hone| |].
  - rewrite refine_heap. destruct (blank (manuscriptText req)); [done|].
    destruct (heap w !! DEFAULT_SETTINGS ext) as [d|] eqn:Hd.
    + destruct (request_settings_isolated ext req (heap w)) as [H _].
      by eapply lookup_weaken.
    + by rewrite request_settings_opaque.
  - intros reqs. revert w. induction reqs as [|[ext' req'] reqs IH]; intros w; [done|].
    simpl. specialize (Hone ext' req' w).
    destruct (refine ext' req' w) as [w1 r]. simpl in Hone.
    specialize (IH w1). destruct (serve reqs w1) as [w2 rs]. simpl in *.
    by etrans.
Qed.







(** The settings of a job on the sample defaults: the overrides of the
    sample request are applied; [maxResults = -5] is not, and the defaults
    themselves keep their values. *)
Lemma sample_job_settings :
  (let '(s, h) := job_settings sample_ext sample_request sample_store in
   setting h s "search_settings" "max_results" = Returned (VInt 10)
   /\ setting h s "privacy_settings" "cache_enabled" = Returned (VBool false)
   /\ setting h (VRef 1%positive) "search_settings" "max_results" = Returned (VInt 20)
   /\ setting h (VRef 1%positive) "privacy_settings" "cache_enabled"
      = Returned (VBool true))
  /\ (let '(s, h) := job_settings sample_ext other_request sample_store in
      setting h s "search_settings" "max_results" = Returned (VInt 20)
      /\ setting h s "privacy_settings" "cache_enabled" = Returned (VBool true)).
Proof. vm_compute. repeat split. Qed.

(** * Further properties *)

(** ** Registry and streaming endpoint *)

Lemma list_remove_app_last (s ws : session) (l : list session) :
  s ≠ ws ->
  list_remove s (l ++ [ws])
  = match list_remove s l with Some r => Some (r ++ [ws]) | None => None end.
Proof.
  intros Hne. induction l as [|y l IH]; simpl.
  - by destruct (decide (s = ws)).
  - destruct (decide (s = y)); [done|]. rewrite IH.
    by destruct (list_remove s l).
Qed.

Lemma list_remove_last (ws : session) (l : list session) :
  ws ∉ l -> list_remove ws (l ++ [ws]) = Some l.
Proof.
  intros Hni. apply list_remove_Some. exists l, [].
  split_and!; [done|done|by rewrite app_nil_r].
Qed.

(** X1: registering a session that is not yet in the registry and then
    unregistering it gives back the registry as it was, order included. *)
Theorem connect_disconnect_roundtrip (ws : session) (conns : list session) :
  ws ∉ conns ->
  disconnect ws (connect (Returned tt) ws conns).1 = (conns, Returned tt).
Proof.
  intros Hni. unfold connect, disconnect. simpl.
  by rewrite list_remove_last.
Qed.

Lemma connect_disconnect_roundtrip_witness :
  disconnect 9%nat (connect (Returned tt) 9%nat [4; 5]%nat).1
  = ([4; 5]%nat, Returned tt).
Proof.
  apply (connect_disconnect_roundtrip 9%nat [4; 5]%nat).
  intros Hin. apply list_elem_of_In in Hin. simpl in Hin. intuition discriminate.
Defined.

(** X2: unregistering a session never affects another one: whether or not
    [disconnect] raises, every other session is in the registry afterwards
    exactly when it was before, and the registry shrinks by at most one
    entry. *)
Theorem disconnect_keeps_others (s x : session) (conns : list session) :
  x ≠ s ->
  (x ∈ (disconnect s conns).1 <-> x ∈ conns)
  /\ (length conns - 1 <= length (disconnect s conns).1 <= length conns)%nat.
Proof.
  intros Hne. unfold disconnect.
  destruct (list_remove s conns) as [l'|] eqn:Hr; simpl; [|split; [done|lia]].
  apply list_remove_Some in Hr as (l1 & l2 & -> & _ & ->).
  split.
  - rewrite !elem_of_app, elem_of_cons. naive_solver.
  - rewrite !length_app. simpl. lia.
Qed.

Lemma disconnect_keeps_others_witness :
  (5%nat ∈ (disconnect 7%nat [4; 7; 5]%nat).1 <-> 5%nat ∈ [4; 7; 5]%nat)
  /\ (length [4; 7; 5]%nat - 1 <= length (disconnect 7%nat [4; 7; 5]%nat).1
      <= length [4; 7; 5]%nat)%nat.
Proof. apply (disconnect_keeps_others 7%nat 5%nat [4; 7; 5]%nat). discriminate. Defined.

Lemma list_remove_app (s : session) (l1 l2 : list session) :
  list_remove s (l1 ++ l2)
  = match list_remove s l1 with
    | Some r => Some (r ++ l2)
    | None =>
        match list_remove s l2 with
        | Some r => Some (l1 ++ r)
        | None => None
        end
    end.
Proof.
  induction l1 as [|y l1 IH]; simpl.
  - by destruct (list_remove s l2).
  - destruct (decide (s = y)); [done|]. rewrite IH.
    destruct (list_remove s l1); [done|]. by destruct (list_remove s l2).
Qed.

Lemma list_remove_subset (s x : session) (l r : list session) :
  list_remove s l = Some r -> x ∈ r -> x ∈ l.
Proof.
  intros Hr Hx. apply list_remove_Some in Hr as (l1 & l2 & -> & _ & ->).
  apply elem_of_app in Hx as [Hx|Hx]; apply elem_of_app; [by left|right; by right].
Qed.

Lemma interfere_around (ws : session) (evs : list interference)
    (l1 l2 : list session) :
  foreign ws evs -> ws ∉ l1 -> ws ∉ l2 ->
  exists l1' l2',
    interfere evs (l1 ++ ws :: l2) = l1' ++ ws :: l2'
    /\ interfere evs (l1 ++ l2) = l1' ++ l2'
    /\ (ws ∉ l1') /\ (ws ∉ l2').
Proof.
  intros Hf. revert l1 l2. induction Hf as [|ev evs Hev _ IH]; intros l1 l2 H1 H2.
  - by exists l1, l2.
  - simpl. destruct ev as [s|s]; simpl.
    + rewrite <- !app_assoc. simpl. apply IH; [done|].
      intros Hin. apply elem_of_app in Hin as [Hin|Hin]; [done|].
      apply list_elem_of_singleton in Hin. congruence.
    + unfold disconnect. rewrite !list_remove_app. simpl.
      destruct (decide (s = ws)) as [|_]; [done|].
      destruct (list_remove s l1) as [r1|] eqn:Hr1; simpl.
      * apply IH; [|done]. intros Hin. apply H1. by eapply list_remove_subset.
      * destruct (list_remove s l2) as [r2|] eqn:Hr2; simpl.
        -- apply IH; [done|]. intros Hin. apply H2. by eapply list_remove_subset.
        -- by apply IH.
Qed.

(** X3: a session that was not registered, whose handshake succeeds and
    whose loop ends with [WebSocketDisconnect], leaves no trace: when it
    ends, the registry is what the other sessions alone would have made of
    it, and the endpoint returns normally. *)
Theorem endpoint_leaves_no_trace (script : list turn)
    (meanwhile : list interference) (websocket : session)
    (conns : list session) :
  websocket ∉ conns -> foreign websocket meanwhile ->
  keepalive script = Some WebSocketDisconnect ->
  websocket_endpoint (Returned tt) script meanwhile websocket conns
  = (interfere meanwhile conns, Ended (Returned tt)).
Proof.
  intros Hni Hf Hk. unfold websocket_endpoint, connect. rewrite Hk. simpl.
  assert (websocket ∉ ([] : list session)) as Hnil by apply not_elem_of_nil.
  destruct (interfere_around websocket meanwhile conns [] Hf Hni Hnil)
    as (l1 & l2 & Ha & Hb & Hl1 & Hl2).
  rewrite app_nil_r in Hb. rewrite Ha, Hb. unfold disconnect.
  assert (list_remove websocket (l1 ++ websocket :: l2) = Some (l1 ++ l2)) as ->; [|done].
  apply list_remove_Some. by exists l1, l2.
Qed.

Lemma endpoint_leaves_no_trace_witness :
  websocket_endpoint (Returned tt)
    [{| inbound := Returned (lit "ping"); ping := Returned tt |};
     {| inbound := Raised TimeoutError; ping := Returned tt |};
     {| inbound := Raised WebSocketDisconnect; ping := Returned tt |}]
    [Registers 6%nat; Unregisters 4%nat] 5%nat [4%nat]
  = ([6%nat], Ended (Returned tt)).
Proof.
  apply (endpoint_leaves_no_trace _ [Registers 6%nat; Unregisters 4%nat] 5%nat [4%nat]).
  - intros Hin. apply list_elem_of_In in Hin. simpl in Hin. intuition discriminate.
  - repeat constructor; discriminate.
  - reflexivity.
Defined.

Lemma keepalive_benign_cons (t : turn) (script : list turn) :
  benign t = true -> keepalive (t :: script) = keepalive script.
Proof.
  unfold benign. simpl. destruct (inbound t) as [?|e]; [done|].
  destruct (is_TimeoutError e); [|done]. by destruct (ping t).
Qed.

Lemma keepalive_not_benign_cons (t : turn) (script : list turn) :
  benign t = false -> exists e, keepalive (t :: script) = Some e.
Proof.
  unfold benign. simpl. destruct (inbound t) as [?|e]; [done|].
  destruct (is_TimeoutError e); [|by eexists].
  destruct (ping t); [done|by eexists].
Qed.

(** X4: the keep-alive loop goes on exactly as long as every turn is an
    inbound message or an idle timeout whose ping was sent; the turns
    after the first other turn are never read. *)
Theorem keepalive_runs_while_benign (script : list turn) :
  (keepalive script = None <-> Forall (fun t => benign t = true) script)
  /\ forall pre t post,
       script = pre ++ t :: post ->
       Forall (fun t => benign t = true) pre -> benign t = false ->
       keepalive script = keepalive [t] /\ keepalive script <> None.
Proof.
  split.
  - induction script as [|t script IH]; [by split|].
    destruct (benign t) eqn:Hb.
    + rewrite keepalive_benign_cons by done. rewrite IH. split.
      * intros H. by constructor.
      * intros H. by apply Forall_cons in H as [_ H].
    + destruct (keepalive_not_benign_cons t script Hb) as [e ->]. split; [done|].
      intros H. apply Forall_cons in H as [H _]. congruence.
  - intros pre t post -> Hpre Hb.
    induction Hpre as [|t0 pre H0 _ IH]; simpl app.
    + destruct (keepalive_not_benign_cons t post Hb) as [e He].
      destruct (keepalive_not_benign_cons t [] Hb) as [e' He'].
      rewrite He. split; [|done]. rewrite He'.
      revert He He'. unfold benign in Hb. simpl.
      destruct (inbound t) as [?|e0]; [done|].
      destruct (is_TimeoutError e0); [|congruence].
      destruct (ping t); [done|congruence].
    + by rewrite keepalive_benign_cons.
Qed.

Lemma keepalive_runs_while_benign_witness :
  keepalive
    [{| inbound := Returned (lit "hello"); ping := Returned tt |};
     {| inbound := Raised TimeoutError; ping := Raised (RuntimeError (lit "closed")) |};
     {| inbound := Raised WebSocketDisconnect; ping := Returned tt |}]
  = keepalive
      [{| inbound := Raised TimeoutError; ping := Raised (RuntimeError (lit "closed")) |}].
Proof.
  destruct (keepalive_runs_while_benign
    [{| inbound := Returned (lit "hello"); ping := Returned tt |};
     {| inbound := Raised TimeoutError; ping := Raised (RuntimeError (lit "closed")) |};
     {| inbound := Raised WebSocketDisconnect; ping := Returned tt |}]) as [_ H].
  destruct (H [{| inbound := Returned (lit "hello"); ping := Returned tt |}]
              {| inbound := Raised TimeoutError;
                 ping := Raised (RuntimeError (lit "closed")) |}
              [{| inbound := Raised WebSocketDisconnect; ping := Returned tt |}])
    as [H1 _]; [reflexivity|by repeat constructor|reflexivity|].
  exact H1.
Defined.

Lemma interfere_app (evs1 evs2 : list interference) (conns : list session) :
  interfere (evs1 ++ evs2) conns = interfere evs2 (interfere evs1 conns).
Proof. unfold interfere. by rewrite fold_left_app. Qed.

Lemma broadcast_loop_registry (send : transport) (msg : message)
    (sched : list (list interference)) (i : nat) (conns : list session) :
  exists n,
    connections_after (broadcast_loop send msg sched i conns)
    = interfere (concat (take n sched)) conns.
Proof.
  revert i conns. induction sched as [|evs sched IH]; intros i conns; simpl.
  - exists 0%nat. by destruct (broadcast_rest send msg (drop i conns)).
  - destruct (conns !! i) as [c|]; [|by exists 0%nat].
    destruct (IH (S i) (interfere evs conns)) as [n Hn].
    exists (S n). simpl. rewrite interfere_app.
    by destruct (send c msg).
Qed.

(** X5: a broadcast never edits the registry: the registry it leaves is
    the one it was given, changed only by what the other tasks did while it
    was suspended. A session whose send fails is not unregistered. *)
Theorem broadcast_never_edits_registry (send : transport) (msg : message)
    (sched : list (list interference)) (conns : list session) :
  (exists n, connections_after (broadcast send msg sched conns)
             = interfere (concat (take n sched)) conns)
  /\ connections_after (broadcast send msg [] conns) = conns.
Proof.
  split; [apply broadcast_loop_registry|].
  unfold broadcast. simpl. by destruct (broadcast_rest send msg (drop 0 conns)).
Qed.

Lemma interfere_registers_prefix (evs : list interference) (conns : list session) :
  Forall (fun ev => match ev with Registers _ => True | Unregisters _ => False end) evs ->
  exists new, interfere evs conns = conns ++ new.
Proof.
  intros H. revert conns. induction H as [|ev evs Hev _ IH]; intros conns.
  - exists []. by rewrite app_nil_r.
  - destruct ev as [s|s]; [|done]. simpl.
    destruct (IH (conns ++ [s])) as [new Hnew]. exists (s :: new).
    rewrite Hnew. by rewrite <- app_assoc.
Qed.

Lemma broadcast_loop_registers (send : transport) (msg : message)
    (sched : list (list interference)) (i : nat) (conns : list session) :
  only_registers sched -> (i <= length conns)%nat ->
  (exists new, connections_after (broadcast_loop send msg sched i conns) = conns ++ new)
  /\ attempted (broadcast_loop send msg sched i conns)
     = drop i (connections_after (broadcast_loop send msg sched i conns)).
Proof.
  intros H. revert i conns. induction H as [|evs sched Hevs _ IH]; intros i conns Hi.
  - simpl. rewrite broadcast_rest_spec. unfold attempted. simpl.
    split; [exists []; by rewrite app_nil_r|apply attempted_quiet].
  - simpl. destruct (conns !! i) as [c|] eqn:Hc.
    + assert (try_pass (send c msg) = Returned tt) as -> by by destruct (send c msg).
      destruct (interfere_registers_prefix evs conns Hevs) as [new Hnew].
      destruct (IH (S i) (interfere evs conns)) as [[new' Hafter] Hatt].
      { rewrite Hnew, length_app. apply lookup_lt_Some in Hc. lia. }
      unfold attempted in *. simpl. rewrite Hatt, Hafter, Hnew. split.
      * exists (new ++ new'). by rewrite <- app_assoc.
      * rewrite <- app_assoc.
        symmetry. apply drop_S. apply lookup_app_l_Some. done.
    + simpl. split; [exists []; by rewrite app_nil_r|].
      rewrite drop_ge; [done|]. by apply lookup_ge_None.
Qed.

(** X6: when sessions only register while a broadcast runs, the walk over
    the live list reaches them too: [send_text] is called, in registry
    order, on exactly the sessions in the registry when the broadcast
    ends, those that joined meanwhile included. *)
Theorem broadcast_reaches_late_joiners (send : transport) (msg : message)
    (sched : list (list interference)) (conns : list session) :
  only_registers sched ->
  attempted (broadcast send msg sched conns)
  = connections_after (broadcast send msg sched conns).
Proof.
  intros H. unfold broadcast.
  destruct (broadcast_loop_registers send msg sched 0 conns H) as [_ Hatt];
    [lia|].
  by rewrite Hatt, drop_0.
Qed.

Lemma broadcast_reaches_late_joiners_witness :
  attempted (broadcast flaky MsgPing [[Registers 8%nat]; []; [Registers 9%nat]]
               [1; 2]%nat)
  = [1; 2; 8; 9]%nat.
Proof.
  rewrite (broadcast_reaches_late_joiners flaky MsgPing
             [[Registers 8%nat]; []; [Registers 9%nat]] [1; 2]%nat).
  - reflexivity.
  - repeat constructor.
Defined.

(** ** Submit handler *)

Lemma lstrip_nil_iff (s : str) :
  lstrip s = [] <-> Forall (fun c => isspace c = true) s.
Proof.
  split; [|apply lstrip_spaces].
  induction s as [|c s IH]; [constructor|]. simpl.
  destruct (isspace c) eqn:Hc; [|done].
  intros H. constructor; [done|by apply IH].
Qed.

(** X7: [refine] takes the short cut exactly for the texts made only of
    whitespace (the empty text among them): a text with one other code
    point anywhere in it goes on to the refiner. *)
Theorem blank_iff_whitespace (s : str) :
  blank s = true <-> Forall (fun c => isspace c = true) s.
Proof.
  split.
  - unfold blank. intros H. apply orb_true_iff in H as [H|H].
    { destruct s; [constructor|discriminate H]. }
    destruct (strip s) as [|c' s'] eqn:Hr; [|discriminate H].
    unfold strip, rstrip in Hr.
    apply (f_equal (@rev N)) in Hr. rewrite rev_involutive in Hr. simpl in Hr.
    apply lstrip_nil_iff in Hr. apply Forall_rev in Hr.
    rewrite rev_involutive in Hr.
    destruct (lstrip s) as [|c0 s0] eqn:Hl; [by apply lstrip_nil_iff|].
    exfalso.
    assert (isspace c0 = false) as Hc0.
    { clear -Hl. induction s as [|a l IH]; [done|]. simpl in Hl.
      destruct (isspace a) eqn:Ha; [by apply IH|]. congruence. }
    apply Forall_cons in Hr as [Hr _]. congruence.
  - intros H. unfold blank. rewrite (strip_spaces _ H). apply orb_true_r.
Qed.

Lemma get_refiner_frame {engine} (ext : collaborators engine) (settings : pyval)
    (w : world engine) :
  heap (get_refiner ext settings w).1 = heap w
  /\ active_connections (get_refiner ext settings w).1 = active_connections w
  /\ tasks (get_refiner ext settings w).1 = tasks w.
Proof.
  unfold get_refiner. destruct (nlp_processor w); [done|].
  by destruct (NLPProcessor ext _ _).
Qed.

Lemma refine_registry_tasks {engine} (ext : collaborators engine)
    (req : RefineRequest) (w : world engine) :
  active_connections (refine ext req w).1 = active_connections w
  /\ exists msgs, tasks (refine ext req w).1 = tasks w ++ msgs.
Proof.
  destruct (blank (manuscriptText req)) eqn:Hb.
  - unfold refine. rewrite Hb. simpl. split; [done|]. exists []. by rewrite app_nil_r.
  - rewrite refine_nonblank by done.
    pose proof (get_refiner_frame ext (request_settings ext req (heap w)).1
                  (set_heap (request_settings ext req (heap w)).2 w)) as (_ & Hc & Ht).
    destruct (get_refiner ext _ _) as [w1 [refiner|e]]; simpl in *.
    + pose proof (run_job_frame ext refiner (manuscriptText req) w1)
        as (_ & _ & Hc1 & m1 & Ht1).
      destruct (run_job ext refiner _ w1) as [w2 [resp|e]]; simpl in *.
      * split; [congruence|]. exists m1. congruence.
      * pose proof (handle_job_failure_frame ext refiner e w2)
          as (_ & _ & Hc2 & m2 & Ht2).
        split; [congruence|]. exists (m1 ++ m2).
        rewrite Ht2, Ht1, Ht. by rewrite app_assoc.
    + split; [done|]. exists []. rewrite app_nil_r. done.
Qed.

(** X8: serving requests never touches the session registry, and never
    removes or reorders a scheduled broadcast: the task queue only grows at
    its end. *)
Theorem serve_keeps_registry {engine}
    (reqs : list (collaborators engine * RefineRequest)) (w : world engine) :
  active_connections (serve reqs w).1 = active_connections w
  /\ exists msgs, tasks (serve reqs w).1 = tasks w ++ msgs.
Proof.
  revert w. induction reqs as [|[ext req] reqs IH]; intros w; simpl.
  - split; [done|]. exists []. by rewrite app_nil_r.
  - pose proof (refine_registry_tasks ext req w) as (Hc & m1 & Ht).
    destruct (refine ext req w) as [w1 r]. simpl in *.
    destruct (IH w1) as (Hc' & m2 & Ht').
    destruct (serve reqs w1) as [w2 rs]. simpl in *.
    split; [congruence|]. exists (m1 ++ m2). rewrite Ht', Ht. by rewrite app_assoc.
Qed.

Lemma run_job_reliable {engine} (ext : collaborators engine)
    (refiner : DocumentRefiner engine) (text : str) (w : world engine) :
  (forall msg, create_task ext msg = Returned tt) ->
  exists n r,
    run_job ext refiner text w = (n, r)
    /\ heap n = heap w /\ nlp_processor n = nlp_processor w
    /\ active_connections n = active_connections w
    /\ match refine_document ext refiner text with
       | Raised e => r = Raised e /\ tasks n = tasks w ++ take 1 progress_events
       | Returned a =>
           match generate_bibliography_text ext refiner with
           | Raised e => r = Raised e /\ tasks n = tasks w ++ take 2 progress_events
           | Returned b =>
               match generate_bibtex_content ext refiner with
               | Raised e => r = Raised e /\ tasks n = tasks w ++ take 2 progress_events
               | Returned c =>
                   r = Returned {| processedText := a; bibliographyText := b;
                                   bibtex := c |}
                   /\ tasks n = tasks w ++ progress_events
               end
           end
       end.
Proof.
  intros Hct.
  unfold run_job, action_bind, update_progress, schedule_broadcast, call.
  rewrite !Hct.
  destruct (refine_document ext refiner text) as [a|e].
  2: { eexists _, _. split; [reflexivity|]. simpl. by split_and!. }
  rewrite ?Hct.
  destruct (generate_bibliography_text ext refiner) as [b|e].
  2: { eexists _, _. split; [reflexivity|]. simpl. split_and!; try done.
       by rewrite <- app_assoc. }
  destruct (generate_bibtex_content ext refiner) as [c|e].
  2: { eexists _, _. split; [reflexivity|]. simpl. split_and!; try done.
       by rewrite <- app_assoc. }
  rewrite ?Hct. eexists _, _. split; [reflexivity|]. simpl. split_and!; try done.
  by rewrite <- !app_assoc.
Qed.

(** X9: a job whose three stages return, with task scheduling working,
    returns the triple of what the stages returned and schedules exactly
    the three progress events, in order: 0, 0.98 and 1. *)
Theorem job_success {engine} (ext : collaborators engine) (req : RefineRequest)
    (w w1 : world engine) (refiner : DocumentRefiner engine) (a b c : str) :
  blank (manuscriptText req) = false ->
  (forall msg, create_task ext msg = Returned tt) ->
  get_refiner ext (request_settings ext req (heap w)).1
    (set_heap (request_settings ext req (heap w)).2 w) = (w1, Returned refiner) ->
  refine_document ext refiner (manuscriptText req) = Returned a ->
  generate_bibliography_text ext refiner = Returned b ->
  generate_bibtex_content ext refiner = Returned c ->
  (refine ext req w).2
  = Returned {| processedText := a; bibliographyText := b; bibtex := c |}
  /\ tasks (refine ext req w).1 = tasks w ++ progress_events.
Proof.
  intros Hb Hct Hg Ha Hbib Hc. rewrite refine_nonblank by done. rewrite Hg.
  pose proof (get_refiner_frame ext (request_settings ext req (heap w)).1
                (set_heap (request_settings ext req (heap w)).2 w)) as (_ & _ & Ht).
  rewrite Hg in Ht. simpl in Ht.
  destruct (run_job_reliable ext refiner (manuscriptText req) w1 Hct)
    as (n & r & -> & _ & _ & _ & H).
  rewrite Ha, Hbib, Hc in H. destruct H as [-> H]. simpl. by rewrite H, Ht.
Qed.

Lemma job_success_witness :
  (refine sample_ext sample_request sample_world).2
  = Returned {| processedText := lit "Refined document text";
                bibliographyText := lit "Bibliography text";
                bibtex := lit "@article{...}" |}
  /\ tasks (refine sample_ext sample_request sample_world).1 = progress_events.
Proof.
  eapply (job_success sample_ext sample_request sample_world); try reflexivity.
Defined.

(** X10: with task scheduling working, the events a job schedules are in
    program order: the first one, two or three progress events, then at
    most one error event. All three progress events are there exactly when
    the request returns a result, and then there is no error event; an
    error event comes with [HTTPException(500)] carrying the text of the
    stage's exception. *)
Theorem job_events_in_order {engine} (ext : collaborators engine)
    (req : RefineRequest) (w w1 : world engine)
    (refiner : DocumentRefiner engine) :
  blank (manuscriptText req) = false ->
  (forall msg, create_task ext msg = Returned tt) ->
  get_refiner ext (request_settings ext req (heap w)).1
    (set_heap (request_settings ext req (heap w)).2 w) = (w1, Returned refiner) ->
  exists n errs,
    tasks (refine ext req w).1 = tasks w ++ take n progress_events ++ errs
    /\ (1 <= n <= 3)%nat
    /\ match (refine ext req w).2 with
       | Returned _ => n = 3%nat /\ errs = []
       | Raised e' =>
           (n < 3)%nat
           /\ (errs = []
               \/ exists e, errs = [error_event ext e]
                    /\ e' = HTTPException 500 (exception_str ext e))
       end.
Proof.
  intros Hb Hct Hg. rewrite refine_nonblank by done. rewrite Hg.
  pose proof (get_refiner_frame ext (request_settings ext req (heap w)).1
                (set_heap (request_settings ext req (heap w)).2 w)) as (_ & _ & Ht).
  rewrite Hg in Ht. simpl in Ht.
  destruct (run_job_reliable ext refiner (manuscriptText req) w1 Hct)
    as (n & r & -> & _ & _ & _ & H).
  assert (forall k e, (1 <= k < 3)%nat ->
            tasks n = tasks w1 ++ take k progress_events ->
            exists k' errs,
              tasks (handle_job_failure ext refiner e n).1
              = tasks w ++ take k' progress_events ++ errs
              /\ (1 <= k' <= 3)%nat
              /\ match (handle_job_failure ext refiner e n).2 with
                 | Returned _ => k' = 3%nat /\ errs = []
                 | Raised e' =>
                     (k' < 3)%nat
                     /\ (errs = []
                         \/ exists e0, errs = [error_event ext e0]
                              /\ e' = HTTPException 500 (exception_str ext e0))
                 end) as Hfail.
  { intros k e Hk Hn. unfold handle_job_failure, show_error, schedule_broadcast, call.
    destruct (is_HTTPException e).
    - exists k, []. simpl. rewrite Hn, Ht, app_nil_r. split_and!; try lia; [done|by left].
    - rewrite Hct. exists k, [error_event ext e]. simpl.
      rewrite Hn, Ht, <- app_assoc. split_and!; try lia; [done|].
      right. by exists e. }
  destruct (refine_document ext refiner _) as [a|e].
  2: { destruct H as [-> H]. apply (Hfail 1%nat); [lia|done]. }
  destruct (generate_bibliography_text ext refiner) as [b|e].
  2: { destruct H as [-> H]. apply (Hfail 2%nat); [lia|done]. }
  destruct (generate_bibtex_content ext refiner) as [c|e].
  2: { destruct H as [-> H]. apply (Hfail 2%nat); [lia|done]. }
  destruct H as [-> H]. exists 3%nat, []. simpl.
  rewrite H, Ht. split_and!; try done; lia.
Qed.

Lemma job_events_in_order_witness :
  exists n errs,
    tasks (refine (ext_stage_raises (ValueError (lit "boom")) false)
             sample_request sample_world).1
    = tasks sample_world ++ take n progress_events ++ errs
    /\ (1 <= n <= 3)%nat
    /\ (n < 3)%nat
    /\ (errs = []
        \/ exists e,
             errs = [error_event (ext_stage_raises (ValueError (lit "boom")) false) e]
             /\ HTTPException 500 (lit "boom")
                = HTTPException 500
                    (exception_str (ext_stage_raises (ValueError (lit "boom")) false) e)).
Proof.
  destruct (job_events_in_order (ext_stage_raises (ValueError (lit "boom")) false)
              sample_request sample_world) with (w1 := set_nlp_processor (Some 42%nat)
                (set_heap (request_settings
                   (ext_stage_raises (ValueError (lit "boom")) false)
                   sample_request (heap sample_world)).2 sample_world))
    (refiner := {| refiner_settings :=
                     or_default (ext_stage_raises (ValueError (lit "boom")) false)
                       (request_settings
                          (ext_stage_raises (ValueError (lit "boom")) false)
                          sample_request (heap sample_world)).2
                       (request_settings
                          (ext_stage_raises (ValueError (lit "boom")) false)
                          sample_request (heap sample_world)).1;
                   view := mkBroadcastingView;
                   refiner_nlp_processor := 42%nat |})
    as (n & errs & H1 & H2 & H3).
  - reflexivity.
  - intros [| |]; reflexivity.
  - reflexivity.
  - exists n, errs. split; [exact H1|]. split; [exact H2|]. exact H3.
Defined.

(** ** Settings of a request *)

Lemma deepcopy_dict (h : store) (D : loc) (top : gmap string pyval) :
  h !! D = Some top ->
  exists m D',
    deepcopy h (VRef D) = (VRef D', (deepcopy h (VRef D)).2)
    /\ copy_inv h ∅ m (deepcopy h (VRef D)).2
    /\ m !! D = Some D'
    /\ (deepcopy h (VRef D)).2 !! D' = Some (rename m <$> top).
Proof.
  intros Htop.
  destruct (deepcopy_spec h (VRef D)) as (m & Hinv & _ & Hfr & Hy & Hcov).
  assert (D ∈ dom m) as HD by (apply Hcov; [done|by apply elem_of_dom_2 in Htop]).
  apply elem_of_dom in HD as [D' HD].
  destruct (inv_done _ _ _ _ Hinv D D' HD) as (top0 & Ht0 & HtopD & _); [set_solver|].
  assert (top0 = top) as -> by congruence.
  exists m, D'. split_and!; try done.
  destruct (deepcopy h (VRef D)) as [y h']. simpl in *. by rewrite Hy, HD.
Qed.


Lemma try_set_nested_no_section (h : store) (D' : loc) (top' : gmap string pyval)
    (section key : string) (v : pyval) :
  h !! D' = Some top' ->
  match top' !! section with Some (VRef _) => False | _ => True end ->
  try_set_nested h (VRef D') section key v = h.
Proof.
  intros H1 H2. unfold try_set_nested, getitem. rewrite H1.
  destruct (top' !! section) as [sub|]; [|done]. by destruct sub.
Qed.

(** X11: when the defaults are an empty dictionary, their copy is empty
    too, so [settings or DEFAULT_SETTINGS] picks the defaults: the job runs
    on the shared [DEFAULT_SETTINGS] object itself, not on a copy, and no
    override is applied. *)
Theorem empty_defaults_are_shared {engine} (ext : collaborators engine)
    (req : RefineRequest) (w : world engine) :
  heap w !! DEFAULT_SETTINGS ext = Some ∅ ->
  (job_settings ext req (heap w)).1 = VRef (DEFAULT_SETTINGS ext)
  /\ forall w1 refiner,
       get_refiner ext (request_settings ext req (heap w)).1
         (set_heap (request_settings ext req (heap w)).2 w)
       = (w1, Returned refiner) ->
       refiner_settings refiner = VRef (DEFAULT_SETTINGS ext).
Proof.
  intros Hempty.
  destruct (deepcopy_dict _ _ _ Hempty) as (m & D' & Hdc & _ & _ & HD').
  rewrite fmap_empty in HD'.
  set (h1 := (deepcopy (heap w) (VRef (DEFAULT_SETTINGS ext))).2) in *.
  assert (forall section key v, try_set_nested h1 (VRef D') section key v = h1) as Hno.
  { intros. eapply try_set_nested_no_section; [exact HD'|]. by rewrite lookup_empty. }
  assert (request_settings ext req (heap w) = (VRef D', h1)) as Hrs.
  { unfold request_settings. rewrite Hdc.
    destruct (maxResults req) as [n|]; [destruct (0 <? n)|];
      destruct (noCache req) as [[|]|]; by rewrite ?Hno. }
  assert (or_default ext h1 (VRef D') = VRef (DEFAULT_SETTINGS ext)) as Hod.
  { unfold or_default, truthy. rewrite HD'. by rewrite bool_decide_eq_true_2. }
  split.
  - unfold job_settings. by rewrite Hrs.
  - intros w1 refiner. rewrite Hrs. unfold get_refiner. simpl. rewrite Hod.
    destruct (nlp_processor w); [by intros [= <- <-]|].
    destruct (NLPProcessor ext h1 _); [|done]. by intros [= <- <-].
Qed.

Lemma empty_defaults_are_shared_witness :
  (job_settings sample_ext sample_request
     (<[1%positive := ∅]> ∅ : gmap loc (gmap string pyval))).1
  = VRef 1%positive.
Proof.
  destruct (empty_defaults_are_shared sample_ext sample_request
              {| heap := <[1%positive := ∅]> ∅; nlp_processor := None;
                 active_connections := []; tasks := [] |}) as [H _].
  - reflexivity.
  - exact H.
Defined.

(** X12: when the defaults have no [search_settings] section, or have a
    scalar there, a valid [maxResults] is dropped without an error: the
    request is handled exactly as the same request without [maxResults]. *)
Theorem override_dropped_without_section {engine} (ext : collaborators engine)
    (req : RefineRequest) (w : world engine) (top : gmap string pyval) :
  heap w !! DEFAULT_SETTINGS ext = Some top ->
  match top !! "search_settings" with Some (VRef _) => False | _ => True end ->
  refine ext req w = refine ext (without_max_results req) w.
Proof.
  intros Htop Hsec.
  destruct (deepcopy_dict _ _ _ Htop) as (m & D' & Hdc & _ & _ & HD').
  assert (request_settings ext req (heap w)
          = request_settings ext (without_max_results req) (heap w)) as Hrs.
  { unfold request_settings, without_max_results. simpl. rewrite Hdc.
    destruct (maxResults req) as [n|]; [|done]. destruct (0 <? n); [|done].
    assert (try_set_nested (deepcopy (heap w) (VRef (DEFAULT_SETTINGS ext))).2
              (VRef D') "search_settings" "max_results" (VInt n)
            = (deepcopy (heap w) (VRef (DEFAULT_SETTINGS ext))).2) as ->; [|done].
    apply (try_set_nested_no_section _ D' (rename m <$> top)); [done|].
    rewrite lookup_fmap. destruct (top !! "search_settings") as [v|]; [|done].
    by destruct v. }
  destruct (blank (manuscriptText req)) eqn:Hb.
  - unfold refine. simpl. by rewrite Hb.
  - rewrite !refine_nonblank by done. by rewrite Hrs.
Qed.

Lemma override_dropped_without_section_witness :
  refine sample_ext sample_request
    {| heap := <[1%positive := <["version" := VInt 3]> ∅]> ∅; nlp_processor := None;
       active_connections := []; tasks := [] |}
  = refine sample_ext (without_max_results sample_request)
      {| heap := <[1%positive := <["version" := VInt 3]> ∅]> ∅; nlp_processor := None;
         active_connections := []; tasks := [] |}.
Proof.
  apply (override_dropped_without_section sample_ext sample_request _
           (<["version" := VInt 3]> ∅)); reflexivity.
Defined.






(** ** Startup *)



(** X15: startup never fails on the processor: without the flag set to
    ["1"], or when the preload raises, the application starts with an empty
    cache (a processor cached before is dropped), and the first request
    with text whose construction succeeds builds and caches the
    processor. *)
Theorem startup_survives_failed_preload {engine} (environ : gmap string string)
    (ext0 : collaborators engine) (w : world engine) :
  environ_get environ "REFSCORE_PRELOAD_NLP" "0" ≠ "1"
  \/ (exists e, NLPProcessor ext0 (heap w) (VRef (DEFAULT_SETTINGS ext0)) = Raised e) ->
  lifespan environ ext0 w = set_nlp_processor None w
  /\ forall ext req p,
       blank (manuscriptText req) = false ->
       construction ext req (lifespan environ ext0 w) = Returned p ->
       nlp_processor (refine ext req (lifespan environ ext0 w)).1 = Some p.
Proof.
  intros H.
  assert (lifespan environ ext0 w = set_nlp_processor None w) as Hl.
  { unfold lifespan. destruct H as [H|[e H]].
    - by rewrite decide_False.
    - rewrite H. by destruct (decide _). }
  split; [done|]. intros ext req p Hb Hc. apply refine_constructs; [done| |done].
  by rewrite Hl.
Qed.

Lemma startup_survives_failed_preload_witness :
  lifespan (<["REFSCORE_PRELOAD_NLP" := "1"]> ∅) ext_no_engine sample_world
  = sample_world
  /\ nlp_processor
       (refine sample_ext sample_request
          (lifespan (<["REFSCORE_PRELOAD_NLP" := "1"]> ∅) ext_no_engine sample_world)).1
     = Some 42%nat.
Proof.
  destruct (startup_survives_failed_preload (<["REFSCORE_PRELOAD_NLP" := "1"]> ∅)
              ext_no_engine sample_world) as [H1 H2].
  - right. by eexists.
  - split; [exact H1|]. apply H2; reflexivity.
Defined.

(** ** Static files *)

(** For a path that does not begin with a slash, [serve_spa] answers
    with the file [dist/<path>] when it is a file and with
    [dist/index.html] otherwise; for a path that begins with a slash,
    [os.path.join] drops the [dist] prefix, and the file looked up and
    served is the path itself. *)
Theorem serve_spa_paths (isfile : str -> bool) (full_path : str) :
  (startswith_sep full_path = false ->
   serve_spa isfile full_path
   = if isfile (lit "dist/" ++ full_path)
     then mkFileResponse (lit "dist/" ++ full_path)
     else mkFileResponse (lit "dist/index.html"))
  /\ (startswith_sep full_path = true ->
      serve_spa isfile full_path
      = if isfile full_path then mkFileResponse full_path
        else mkFileResponse (lit "dist/index.html")).
Proof.
  unfold serve_spa, path_join. split; intros ->; reflexivity.
Qed.

Lemma serve_spa_paths_witness :
  serve_spa (fun p => bool_decide (p = lit "dist/app.js")) (lit "app.js")
  = mkFileResponse (lit "dist/app.js")
  /\ serve_spa (fun p => bool_decide (p = lit "/etc/hostname")) (lit "/etc/hostname")
     = mkFileResponse (lit "/etc/hostname")
  /\ serve_spa (fun p => bool_decide (p = lit "dist/app.js")) (lit "about")
     = mkFileResponse (lit "dist/index.html").
Proof.
  destruct (serve_spa_paths (fun p => bool_decide (p = lit "dist/app.js")) (lit "app.js"))
    as [H1 _].
  destruct (serve_spa_paths (fun p => bool_decide (p = lit "/etc/hostname"))
              (lit "/etc/hostname")) as [_ H2].
  destruct (serve_spa_paths (fun p => bool_decide (p = lit "dist/app.js")) (lit "about"))
    as [H3 _].
  split_and!; [apply H1|apply H2|apply H3]; reflexivity.
Defined.
